(** * commit-editor: the text-buffer engine of [commit_editor/app.py]

    A shallow embedding of the line wrapper [wrap_line], the auto-wrap
    controller [CommitTextArea.wrap_current_body_line] and the trailer toggle
    [CommitEditorApp.action_toggle_signoff], together with the identity
    formatter [get_signed_off_by] of [commit_editor/git.py].

    Python [str] values are lists of characters.  The character type is
    [ascii], read as the code points 0..255; [len] is [length], [+] on
    strings is [++].  Python integers that index rows and columns of the
    editor are natural numbers (the widget only ever yields non-negative
    locations); the wrap width is an arbitrary integer. *)

From Stdlib Require Import String.
From Stdlib Require Import List Ascii ZArith Lia Bool Arith.
Import ListNotations.

Local Open Scope list_scope.

(** ** Strings *)

Module Str.

Abbreviation str := (list ascii).

(** String literals. *)
Definition lit (s : String.string) : str := String.list_ascii_of_string s.
Arguments lit s%_string.

Definition space : ascii := " "%char.
Definition newline : ascii := "010"%char.
Definition hash : ascii := "#"%char.

(** [len(s)] as a Python integer. *)
Definition len (s : str) : Z := Z.of_nat (length s).

(** Truth value of a string: [if s] holds for every non-empty string. *)
Definition truthy (s : str) : bool :=
  match s with
  | [] => false
  | _ :: _ => true
  end.

(** [c.isspace()] on the code points below 256: TAB, LF, VT, FF, CR, the
    four separators FS, GS, RS, US, the space, NEL and the no-break space. *)
Definition isspace (c : ascii) : bool :=
  let n := nat_of_ascii c in
  ((9 <=? n) && (n <=? 13)) || ((28 <=? n) && (n <=? 32))
  || (n =? 133) || (n =? 160).

Fixpoint lstrip (s : str) : str :=
  match s with
  | [] => []
  | c :: s' => if isspace c then lstrip s' else s
  end.

Definition rstrip (s : str) : str := rev (lstrip (rev s)).

(** [s.strip()]: whitespace removed at both ends. *)
Definition strip (s : str) : str := rstrip (lstrip s).

(** [s.startswith(p)]. *)
Fixpoint startswith (s p : str) : bool :=
  match p with
  | [] => true
  | c :: p' =>
      match s with
      | [] => false
      | d :: s' => Ascii.eqb d c && startswith s' p'
      end
  end.

(** [s.split(sep)] for a one-character separator: every occurrence of the
    separator cuts, empty pieces are kept, and the result is never empty. *)
Fixpoint split (sep : ascii) (s : str) : list str :=
  match s with
  | [] => [[]]
  | c :: s' =>
      if Ascii.eqb c sep then [] :: split sep s'
      else
        match split sep s' with
        | [] => [[c]]
        | w :: ws => (c :: w) :: ws
        end
  end.

(** [sep.join(pieces)] for a one-character separator. *)
Fixpoint join (sep : ascii) (pieces : list str) : str :=
  match pieces with
  | [] => []
  | [p] => p
  | p :: ps => p ++ sep :: join sep ps
  end.

(** [sep not in s]. *)
Definition free_of (sep : ascii) (s : str) : Prop := ~ In sep s.

End Str.

Import Str.

(** ** The line wrapper, [wrap_line] *)

Definition TITLE_MAX_LENGTH : Z := 50.
Definition BODY_MAX_LENGTH : Z := 72.

(** One iteration of the loop [for word in words] of [wrap_line]; the state
    is the pair of the list [lines] and the string [current_line]. *)
Definition wrap_step (width : Z) (st : list str * str) (word : str)
  : list str * str :=
  let '(lines, current_line) := st in
  if negb (truthy word) then
    (lines, if truthy current_line then current_line ++ [space]
            else current_line)
  else
    let test_line :=
      if truthy current_line then strip (current_line ++ space :: word)
      else word in
    if (len test_line <=? width)%Z then (lines, test_line)
    else
      ((if truthy current_line then lines ++ [current_line] else lines),
       word).

Definition wrap_loop (width : Z) (words : list str) (st : list str * str)
  : list str * str :=
  fold_left (wrap_step width) words st.

(** What follows the loop: the last line is flushed, and an empty result is
    replaced by one empty line. *)
Definition wrap_finish (st : list str * str) : list str :=
  let '(lines, current_line) := st in
  let lines := if truthy current_line then lines ++ [current_line]
               else lines in
  match lines with
  | [] => [[]]
  | _ :: _ => lines
  end.

Definition wrap_line (line : str) (width : Z) : list str :=
  if negb (truthy line) then [[]]
  else if (len line <=? width)%Z then [line]
  else wrap_finish (wrap_loop width (split space line) ([], [])).

(** ** The editor state *)

(** A cursor location [(row, column)], both counted from 0. *)
Definition Location := (nat * nat)%type.

(** The two attributes of the text area that the transforms read and
    write.  The lines of the document are [text.split("\n")], as the code
    computes them at every use. *)
Record CommitTextArea := {
  text : str;
  cursor_location : Location
}.

(** The message bar: its text and whether it carries the class [error]. *)
Record MessageBar := {
  message : str;
  error : bool
}.

Record CommitEditorApp := {
  editor : CommitTextArea;
  message_bar : MessageBar
}.

Definition document_lines (t : str) : list str := split newline t.

(** [TextArea.load_text] followed by the assignment to [cursor_location]. *)
Definition load_text (new_text : str) (loc : Location) : CommitTextArea :=
  {| text := new_text; cursor_location := loc |}.

(** [MessageBar.show_message]. *)
Definition show_message (msg : str) (err : bool) (app : CommitEditorApp)
  : CommitEditorApp :=
  {| editor := editor app;
     message_bar := {| message := msg; error := err |} |}.

(** ** The auto-wrap controller, [wrap_current_body_line] *)

Definition wrap_current_body_line (ed : CommitTextArea) : CommitTextArea :=
  let '(cursor_row, cursor_col) := cursor_location ed in
  let lines := document_lines (text ed) in
  if (cursor_row <? 2) || (length lines <=? cursor_row) then ed
  else
    let current_line := nth cursor_row lines [] in
    if (len current_line <=? BODY_MAX_LENGTH)%Z then ed
    else
      let wrapped := wrap_line current_line BODY_MAX_LENGTH in
      if length wrapped <=? 1 then ed
      else
        let lines :=
          firstn cursor_row lines ++ wrapped ++ skipn (cursor_row + 1) lines in
        let new_text := join newline lines in
        let first := nth 0 wrapped [] in
        let new_loc :=
          if length first <? cursor_col then
            let new_col := cursor_col - length first - 1 in
            (cursor_row + 1,
             Nat.max 0
               (Nat.min new_col
                  (if 1 <? length wrapped then length (nth 1 wrapped [])
                   else 0)))
          else (cursor_row, cursor_col) in
        load_text new_text new_loc.

(** ** The identity provider, [get_signed_off_by] *)

(** What [get_user_name()] and [get_user_email()] returned. *)
Record GitConfig := {
  user_name : option str;
  user_email : option str
}.

Definition get_signed_off_by (git : GitConfig) : option str :=
  match user_name git, user_email git with
  | Some name, Some email =>
      if truthy name && truthy email then
        Some (lit "Signed-off-by: " ++ name ++ lit " <" ++ email ++ lit ">")
      else None
  | _, _ => None
  end.

(** ** The trailer toggle, [action_toggle_signoff] *)

Definition SIGNOFF_PREFIX : str := lit "Signed-off-by:".

(** [not line.strip()]. *)
Definition is_blank (line : str) : bool := negb (truthy (strip line)).

(** Index of the first line that starts with [#], the number of lines when
    there is none. *)
Fixpoint comment_start_index (lines : list str) : nat :=
  match lines with
  | [] => 0
  | line :: rest =>
      if startswith line [hash] then 0 else S (comment_start_index rest)
  end.

Fixpoint dropwhile {A : Type} (p : A -> bool) (l : list A) : list A :=
  match l with
  | [] => []
  | x :: r => if p x then dropwhile p r else l
  end.

(** [while content_lines and not content_lines[-1].strip(): pop()]. *)
Definition pop_blank (content_lines : list str) : list str :=
  rev (dropwhile is_blank (rev content_lines)).

(** The loop [for i in range(len(content_lines) - 1, -1, -1)], entered at
    index [i]: the index of the trailer it finds, if it finds one. *)
Fixpoint find_signoff_from (content_lines : list str) (i : nat)
  : option nat :=
  match nth_error content_lines i with
  | None => None
  | Some line =>
      if startswith line SIGNOFF_PREFIX then Some i
      else if truthy (strip line) && negb (startswith line [hash]) then None
      else
        match i with
        | 0 => None
        | S j => find_signoff_from content_lines j
        end
  end.

Definition find_signoff (content_lines : list str) : option nat :=
  match length content_lines with
  | 0 => None
  | S n => find_signoff_from content_lines n
  end.

(** [del content_lines[i]]. *)
Definition del_at {A : Type} (i : nat) (l : list A) : list A :=
  firstn i l ++ skipn (S i) l.

(** The content lines after the toggle, from the content lines cut off
    before the comment block. *)
Definition toggle_content (signoff : str) (content_lines : list str)
  : list str :=
  let content_lines := pop_blank content_lines in
  match find_signoff content_lines with
  | Some signoff_index => pop_blank (del_at signoff_index content_lines)
  | None =>
      let content_lines :=
        if truthy (strip (last content_lines [])) then content_lines ++ [[]]
        else content_lines in
      content_lines ++ [signoff]
  end.

(** The reassembly of the buffer. *)
Definition reassemble (content_lines comment_lines : list str) : str :=
  match comment_lines with
  | [] => join newline content_lines
  | _ :: _ =>
      join newline content_lines
      ++ newline :: newline :: join newline comment_lines
  end.

Definition content_block (lines : list str) : list str :=
  firstn (comment_start_index lines) lines.

Definition comment_block (lines : list str) : list str :=
  skipn (comment_start_index lines) lines.

(** The new buffer text, for a trailer string that passed the guard. *)
Definition toggle_text (signoff : str) (t : str) : str :=
  let lines := document_lines t in
  reassemble (toggle_content signoff (content_block lines))
             (comment_block lines).

(** The cursor restored after the buffer was replaced. *)
Definition restore_cursor (new_text : str) (cursor_pos : Location)
  : Location :=
  let new_lines := document_lines new_text in
  let max_row := length new_lines - 1 in
  let new_row := Nat.min (fst cursor_pos) max_row in
  let max_col :=
    if new_row <? length new_lines then length (nth new_row new_lines [])
    else 0 in
  (new_row, Nat.min (snd cursor_pos) max_col).

(** The guard [if not signoff] on the value of [get_signed_off_by()]. *)
Definition signoff_missing (signoff : option str) : bool :=
  match signoff with
  | None => true
  | Some s => negb (truthy s)
  end.

Definition NOT_CONFIGURED : str := lit "Git user not configured".

Definition action_toggle_signoff (git : GitConfig) (app : CommitEditorApp)
  : CommitEditorApp :=
  let ed := editor app in
  match get_signed_off_by git with
  | Some signoff =>
      if truthy signoff then
        let new_text := toggle_text signoff (text ed) in
        {| editor :=
             load_text new_text
               (restore_cursor new_text (cursor_location ed));
           message_bar := message_bar app |}
      else show_message NOT_CONFIGURED true app
  | None => show_message NOT_CONFIGURED true app
  end.

(** ** The identity lookups, [get_user_name] and [get_user_email] *)

(** What [subprocess.run(["git", "config", key], check=True)] did: it
    returned, with the captured standard output, or it raised one of the
    two exceptions that the lookups catch.  Any other exception leaves the
    lookup uncaught and is not part of the model. *)
Inductive RunResult :=
| Completed (stdout : str)
| CalledProcessError
| FileNotFoundError.

(** [result.stdout.strip() or None], and [None] in both handlers. *)
Definition get_user_name (run : RunResult) : option str :=
  match run with
  | Completed stdout =>
      let name := strip stdout in
      if truthy name then Some name else None
  | CalledProcessError => None
  | FileNotFoundError => None
  end.

Definition get_user_email (run : RunResult) : option str :=
  match run with
  | Completed stdout =>
      let email := strip stdout in
      if truthy email then Some email else None
  | CalledProcessError => None
  | FileNotFoundError => None
  end.

(** The two lookups that [get_signed_off_by] makes. *)
Definition read_git_config (name_run email_run : RunResult) : GitConfig :=
  {| user_name := get_user_name name_run;
     user_email := get_user_email email_run |}.

(** ** Saving and quitting *)

(** [s.endswith(p)]. *)
Definition endswith (s p : str) : bool := startswith (rev s) (rev p).

(** [a != b] on strings is [negb (str_eqb a b)]. *)
Definition str_eqb (a b : str) : bool :=
  if list_eq_dec ascii_dec a b then true else false.

(** The text that [action_save] writes: every line without the white
    space at its end, and a line break at the end of the text. *)
Definition save_content (content : str) : str :=
  let lines := split newline content in
  let content := join newline (map rstrip lines) in
  if endswith content [newline] then content else content ++ [newline].

(** The values of [_prompt_mode] other than [None]. *)
Inductive PromptMode := quit_confirm.

(** The application, [ui], with what the save and quit actions read and write:
    the name and the content of the file, the attributes [dirty],
    [_original_content] and [_prompt_mode], the [read_only] flag of the
    editor, and whether [exit()] was called. *)
Record Session := {
  ui : CommitEditorApp;
  filename : str;
  file_content : str;
  dirty : bool;
  _original_content : str;
  _prompt_mode : option PromptMode;
  read_only : bool;
  exited : bool
}.

Definition set_ui (a : CommitEditorApp) (s : Session) : Session :=
  {| ui := a; filename := filename s; file_content := file_content s;
     dirty := dirty s; _original_content := _original_content s;
     _prompt_mode := _prompt_mode s; read_only := read_only s;
     exited := exited s |}.

Definition set_prompt_mode (m : option PromptMode) (s : Session) : Session :=
  {| ui := ui s; filename := filename s; file_content := file_content s;
     dirty := dirty s; _original_content := _original_content s;
     _prompt_mode := m; read_only := read_only s; exited := exited s |}.

Definition set_read_only (b : bool) (s : Session) : Session :=
  {| ui := ui s; filename := filename s; file_content := file_content s;
     dirty := dirty s; _original_content := _original_content s;
     _prompt_mode := _prompt_mode s; read_only := b; exited := exited s |}.

Definition set_dirty (b : bool) (s : Session) : Session :=
  {| ui := ui s; filename := filename s; file_content := file_content s;
     dirty := b; _original_content := _original_content s;
     _prompt_mode := _prompt_mode s; read_only := read_only s;
     exited := exited s |}.

(** [self.exit()]. *)
Definition exit (s : Session) : Session :=
  {| ui := ui s; filename := filename s; file_content := file_content s;
     dirty := dirty s; _original_content := _original_content s;
     _prompt_mode := _prompt_mode s; read_only := read_only s;
     exited := true |}.

(** [MessageBar.show_prompt] and [MessageBar.clear]: both remove the class
    [error]. *)
Definition show_prompt (msg : str) (a : CommitEditorApp) : CommitEditorApp :=
  {| editor := editor a;
     message_bar := {| message := msg; error := false |} |}.

Definition clear_message (a : CommitEditorApp) : CommitEditorApp :=
  {| editor := editor a;
     message_bar := {| message := []; error := false |} |}.

(** [on_mount]: the file is read and loaded into the editor.  [shown] is
    the text that the text area holds once [content] is loaded: the
    widget cuts the loaded text into lines of its own, so that the two
    differ on a file with other line separators than the line feed.  The
    attributes are those that [__init__] set; a fresh text area has its
    cursor at the origin and is not read-only, a fresh message bar is
    empty. *)
Definition on_mount (name content shown : str) : Session :=
  {| ui := {| editor := load_text shown (0, 0);
              message_bar := {| message := []; error := false |} |};
     filename := name;
     file_content := content;
     dirty := false;
     _original_content := content;
     _prompt_mode := None;
     read_only := false;
     exited := false |}.

(** [action_save], for a write that succeeds. *)
Definition action_save (s : Session) : Session :=
  let content := save_content (text (editor (ui s))) in
  {| ui := show_message (lit "Saved " ++ filename s) false (ui s);
     filename := filename s;
     file_content := content;
     dirty := false;
     _original_content := content;
     _prompt_mode := _prompt_mode s;
     read_only := read_only s;
     exited := exited s |}.

Definition SAVE_CHANGES : str := lit "Save changes? (y/n/esc)".

Definition action_quit_app (s : Session) : Session :=
  if dirty s then
    set_ui (show_prompt SAVE_CHANGES (ui s))
      (set_read_only true (set_prompt_mode (Some quit_confirm) s))
  else exit s.

Definition action_confirm_quit (s : Session) : Session :=
  match _prompt_mode s with
  | Some quit_confirm =>
      let s := set_prompt_mode None s in
      let s := set_ui (clear_message (ui s)) s in
      exit (action_save s)
  | None => s
  end.

Definition action_discard_quit (s : Session) : Session :=
  match _prompt_mode s with
  | Some quit_confirm =>
      let s := set_prompt_mode None s in
      exit (set_ui (clear_message (ui s)) s)
  | None => s
  end.

Definition action_cancel_quit (s : Session) : Session :=
  match _prompt_mode s with
  | Some quit_confirm =>
      let s := set_prompt_mode None s in
      let s := set_ui (clear_message (ui s)) s in
      set_read_only false s
  | None => s
  end.

(** [on_key], by the name of the key. *)
Definition on_key (key : str) (s : Session) : Session :=
  match _prompt_mode s with
  | Some quit_confirm =>
      if str_eqb key (lit "y") then action_confirm_quit s
      else if str_eqb key (lit "n") then action_discard_quit s
      else if str_eqb key (lit "escape") then action_cancel_quit s
      else s
  | None => s
  end.

(** [check_action], by the name of the action. *)
Definition check_action (action : str) (s : Session) : bool :=
  match _prompt_mode s with
  | Some _ =>
      str_eqb action (lit "confirm_quit")
      || str_eqb action (lit "discard_quit")
      || str_eqb action (lit "cancel_quit")
  | None => true
  end.

(** [on_editor_changed]: the dirty flag, the auto-wrap, the message. *)
Definition on_editor_changed (s : Session) : Session :=
  let a := ui s in
  let s := set_dirty (negb (str_eqb (text (editor a)) (_original_content s)))
             s in
  let a := {| editor := wrap_current_body_line (editor a);
              message_bar := message_bar a |} in
  let a := match _prompt_mode s with
           | None => clear_message a
           | Some _ => a
           end in
  set_ui a s.

(** The toggle as an action of the session. *)
Definition toggle_signoff (git : GitConfig) (s : Session) : Session :=
  set_ui (action_toggle_signoff git (ui s)) s.

(** ** The title overflow marker, [_highlight_title_overflow] *)

(** What the marker uses of the styles of the rendering library: the
    warning style [Style(color="red", bold=True)], the sum of two styles
    and the truth value of a style. *)
Class StyleOps (Style : Type) := {
  warning_style : Style;
  style_add : Style -> Style -> Style;
  style_truthy : Style -> bool
}.

(** A segment of a rendered line: [Segment(text, style, control)], where
    the style and the control codes may be [None]. *)
Record Segment (Style Control : Type) := mkSegment {
  seg_text : str;
  seg_style : option Style;
  seg_control : option Control
}.

Arguments mkSegment {Style Control} _ _ _.
Arguments seg_text {Style Control} _.
Arguments seg_style {Style Control} _.
Arguments seg_control {Style Control} _.

(** A rendered line: its segments and its width in cells. *)
Record Strip (Style Control : Type) := mkStrip {
  segments : list (Segment Style Control);
  cell_length : Z
}.

Arguments mkStrip {Style Control} _ _.
Arguments segments {Style Control} _.
Arguments cell_length {Style Control} _.

Section Highlight.

Context {Style Control : Type} {ops : StyleOps Style}.

(** One iteration of the loop [for char in text]; the state is
    [char_count] with the two strings under construction. *)
Definition mark_char (st : Z * str * str) (char : ascii) : Z * str * str :=
  let '(char_count, new_text_normal, new_text_warning) := st in
  if (char_count <? TITLE_MAX_LENGTH)%Z
  then ((char_count + 1)%Z, new_text_normal ++ [char], new_text_warning)
  else ((char_count + 1)%Z, new_text_normal, new_text_warning ++ [char]).

(** The test that sets [title_started]. *)
Definition starts_title (text title : str) : bool :=
  truthy text && truthy title && truthy (strip text)
  && startswith title (firstn 5 (strip text)).

(** [style + warning_style if style else warning_style]. *)
Definition combined_style (style : option Style) : Style :=
  match style with
  | Some st => if style_truthy st then style_add st warning_style
               else warning_style
  | None => warning_style
  end.

(** One iteration of the loop [for segment in segments]; the state is
    [char_count], [title_started] and [new_segments]. *)
Definition highlight_step (title : str)
  (st : Z * bool * list (Segment Style Control))
  (segment : Segment Style Control)
  : Z * bool * list (Segment Style Control) :=
  let '(char_count, title_started, new_segments) := st in
  let text := seg_text segment in
  let style := seg_style segment in
  let title_started :=
    if negb title_started then
      if starts_title text title then true else title_started
    else title_started in
  if title_started && truthy text then
    let '(char_count, new_text_normal, new_text_warning) :=
      fold_left mark_char text (char_count, [], []) in
    let new_segments :=
      if truthy new_text_normal
      then new_segments ++ [mkSegment new_text_normal style None]
      else new_segments in
    let new_segments :=
      if truthy new_text_warning
      then new_segments
           ++ [mkSegment new_text_warning (Some (combined_style style)) None]
      else new_segments in
    (char_count, title_started, new_segments)
  else (char_count, title_started, new_segments ++ [segment]).

Definition _highlight_title_overflow (strip : Strip Style Control)
  (title : str) : Strip Style Control :=
  let '(_, _, new_segments) :=
    fold_left (highlight_step title) (segments strip) (0%Z, false, []) in
  mkStrip new_segments (cell_length strip).

(** [render_line], from the line [strip] that the text area renders at
    row [y] and the text of the editor. *)
Definition render_line (y : Z) (strip : Strip Style Control) (t : str)
  : Strip Style Control :=
  if (y =? 0)%Z then
    match split newline t with
    | [] => strip
    | title :: _ =>
        if (TITLE_MAX_LENGTH <? len title)%Z
        then _highlight_title_overflow strip title
        else strip
    end
  else strip.

End Highlight.

(** ** Notions used in the statements *)

(** The only white space of [s] is the space character. *)
Definition plain_spaces (s : str) : Prop :=
  forall c, In c s -> isspace c = true -> c = space.

(** A string without any white space. *)
Definition solid (s : str) : Prop :=
  forall c, In c s -> isspace c = false.

(** The pieces [ws], each after one separator: what [join] appends to a
    first piece. *)
Definition join_tail (sep : ascii) (ws : list str) : str :=
  flat_map (cons sep) ws.

(** The current line of the wrapping loop either is empty or begins with
    a character that is not white space. *)
Definition headed (cur : str) : Prop :=
  match cur with
  | [] => True
  | c :: _ => isspace c = false
  end.

(** Every character of [out] is a character of [line] or a space. *)
Definition chars_from (line out : str) : Prop :=
  forall c, In c out -> In c line \/ c = space.

(** A cursor within the bounds of the document: the row is the index of
    a line, the column is at most the length of that line. *)
Definition valid_cursor (ed : CommitTextArea) : Prop :=
  let lines := document_lines (text ed) in
  fst (cursor_location ed) < length lines
  /\ snd (cursor_location ed)
     <= length (nth (fst (cursor_location ed)) lines []).

(** The four conditions under which [wrap_current_body_line] changes the
    buffer. *)
Definition auto_wrap_acts (ed : CommitTextArea) : bool :=
  let '(cursor_row, _) := cursor_location ed in
  let lines := document_lines (text ed) in
  let current_line := nth cursor_row lines [] in
  (2 <=? cursor_row) && (cursor_row <? length lines)
  && (BODY_MAX_LENGTH <? len current_line)%Z
  && (1 <? length (wrap_line current_line BODY_MAX_LENGTH)).

(** The content of a buffer as the toggle sees it: the lines before the
    first line that starts with [#], without the blank lines at their
    end; and the comment block, from that line on. *)
Definition normal_content (t : str) : list str :=
  pop_blank (content_block (document_lines t)).

Definition comments_of (t : str) : list str :=
  comment_block (document_lines t).

(** [line] does not start with [#]. *)
Definition no_hash (line : str) : Prop := startswith line [hash] = false.

(** The contents on which toggling twice comes back: the last line is
    no trailer; or the content is the trailer string alone; or it ends
    with a line that is neither blank nor a trailer, one empty line and
    the trailer string. *)
Definition trailer_stable (signoff : str) (content : list str) : Prop :=
  startswith (last content []) SIGNOFF_PREFIX = false
  \/ content = [signoff]
  \/ exists pre,
       content = pre ++ [[]; signoff]
       /\ is_blank (last pre []) = false
       /\ startswith (last pre []) SIGNOFF_PREFIX = false.

(** An output line of the wrapper within its bound: [out] is a string
    [base] followed by spaces, where [base] is at most [width] long or is
    a word of [line]. *)
Definition within_bound (line : str) (width : Z) (out : str) : Prop :=
  exists base k,
    out = base ++ repeat space k
    /\ ((len base <= width)%Z \/ In base (split space line)).

(** A string with no white space at either end. *)
Definition trimmed (s : str) : Prop :=
  match s with
  | [] => True
  | c :: _ => isspace c = false /\ isspace (last s c) = false
  end.

(** A text as [action_save] writes it: it ends with a line break and no
    line ends with white space. *)
Definition saved_form (t : str) : Prop :=
  endswith t [newline] = true
  /\ Forall (fun line => rstrip line = line) (document_lines t).

(** What can happen to a session, one step at a time: the user edits the
    text area, which then holds [ed]; a handler or an action of the
    application is called.  Actions are not filtered by [check_action]
    here, so that the runs below include every run of the application. *)
Inductive Step :=
| UserEdit (ed : CommitTextArea)
| Changed
| Key (key : str)
| Save
| QuitApp
| ConfirmQuit
| DiscardQuit
| CancelQuit
| ToggleSignoff (git : GitConfig).

Definition step (s : Session) (e : Step) : Session :=
  match e with
  | UserEdit ed =>
      set_ui {| editor := ed; message_bar := message_bar (ui s) |} s
  | Changed => on_editor_changed s
  | Key key => on_key key s
  | Save => action_save s
  | QuitApp => action_quit_app s
  | ConfirmQuit => action_confirm_quit s
  | DiscardQuit => action_discard_quit s
  | CancelQuit => action_cancel_quit s
  | ToggleSignoff git => toggle_signoff git s
  end.

Definition run (s : Session) (steps : list Step) : Session :=
  fold_left step steps s.

(** The characters that a list of segments displays, and the same
    characters each with the style of its segment. *)
Definition seg_texts {Style Control : Type}
  (segs : list (Segment Style Control)) : str :=
  concat (map seg_text segs).

Definition styled {Style Control : Type}
  (segs : list (Segment Style Control)) : list (ascii * option Style) :=
  flat_map (fun sg => map (fun c => (c, seg_style sg)) (seg_text sg)) segs.

(** The first [n] styled characters as they are, the others with the
    warning style put on top of their own. *)
Definition mark_from {Style : Type} {ops : StyleOps Style} (n : nat)
  (l : list (ascii * option Style)) : list (ascii * option Style) :=
  firstn n l
  ++ map (fun p => (fst p, Some (combined_style (snd p)))) (skipn n l).

(** Styles for the examples: a style is the list of its attributes, the
    sum of two styles has the attributes of both, and the style without
    attributes is the false one. *)
Definition attribute_styles : StyleOps (list str) :=
  {| warning_style := [lit "red"; lit "bold"];
     style_add := fun a b => a ++ b;
     style_truthy := fun a => match a with [] => false | _ :: _ => true end |}.

(** [s] without the spaces at its beginning. *)
Definition lstrip_spaces (s : str) : str :=
  dropwhile (fun c => Ascii.eqb c space) s.


(** * Properties *)

(** ** The functions on the examples of the test suite *)

Example wrap_short :
  wrap_line (lit "This is a short line") 72 = [lit "This is a short line"].
Proof. reflexivity. Qed.

Example wrap_empty : wrap_line [] 72 = [[]].
Proof. reflexivity. Qed.

Example wrap_at_word_boundary :
  wrap_line
    (lit "The quick brown fox jumps over the lazy dog and continues running")
    40
  = [lit "The quick brown fox jumps over the lazy";
     lit "dog and continues running"].
Proof. reflexivity. Qed.

Example wrap_long_word_with_surrounding_text :
  let url := lit "https://example.com/" ++ repeat "a"%char 80 in
  wrap_line (lit "See " ++ url ++ lit " for details") 72
  = [lit "See"; url; lit "for details"].
Proof. vm_compute. reflexivity. Qed.

Example toggle_adds_signoff :
  toggle_text (lit "Signed-off-by: Test User <test@example.com>")
    (lit "Commit message" ++ newline :: newline :: lit "Body text")
  = lit "Commit message" ++ newline :: newline :: lit "Body text"
    ++ newline :: newline
    :: lit "Signed-off-by: Test User <test@example.com>".
Proof. reflexivity. Qed.

Example toggle_removes_signoff :
  toggle_text (lit "Signed-off-by: Test User <test@example.com>")
    (lit "Commit message" ++ newline :: newline :: lit "Body text"
     ++ newline :: newline
     :: lit "Signed-off-by: Test User <test@example.com>")
  = lit "Commit message" ++ newline :: newline :: lit "Body text".
Proof. reflexivity. Qed.

(** ** Splitting and joining *)

Section SplitJoin.

Variable sep : ascii.

Lemma split_not_nil (s : str) : split sep s <> [].
Proof.
  destruct s as [|c s]; simpl; [discriminate|].
  destruct (Ascii.eqb c sep); [discriminate|].
  destruct (split sep s); discriminate.
Qed.

Lemma split_app_sep (u v : str) :
  split sep (u ++ sep :: v) = split sep u ++ split sep v.
Proof.
  induction u as [|c u IH]; simpl.
  - now rewrite Ascii.eqb_refl.
  - destruct (Ascii.eqb c sep); [now rewrite IH|].
    rewrite IH.
    destruct (split sep u) as [|w ws] eqn:E; [|reflexivity].
    now apply split_not_nil in E.
Qed.

Lemma split_free (u : str) : free_of sep u -> split sep u = [u].
Proof.
  unfold free_of.
  induction u as [|c u IH]; simpl; intros H; [reflexivity|].
  destruct (Ascii.eqb_spec c sep) as [->|_]; [exfalso; auto|].
  rewrite IH; auto.
Qed.

Lemma split_pieces_free (s : str) : Forall (free_of sep) (split sep s).
Proof.
  unfold free_of.
  induction s as [|c s IH]; simpl.
  - constructor; [intros []|constructor].
  - destruct (Ascii.eqb_spec c sep) as [->|Hc].
    + constructor; [intros []|exact IH].
    + destruct (split sep s) as [|w ws]; [repeat constructor; simpl; intuition|].
      inversion IH; subst.
      constructor; [|assumption].
      simpl; intros [E|E]; [now apply Hc|auto].
Qed.

Lemma join_cons (p : str) (ps : list str) :
  ps <> [] -> join sep (p :: ps) = p ++ sep :: join sep ps.
Proof. destruct ps; [congruence|reflexivity]. Qed.

Lemma join_split (s : str) : join sep (split sep s) = s.
Proof.
  induction s as [|c s IH]; [reflexivity|].
  cbn [split].
  destruct (Ascii.eqb_spec c sep) as [->|_].
  - rewrite join_cons by apply split_not_nil. now rewrite IH.
  - destruct (split sep s) as [|w ws] eqn:E; [now apply split_not_nil in E|].
    destruct ws as [|w' ws].
    + cbn in *. now rewrite IH.
    + rewrite join_cons in * by discriminate. now rewrite <- IH.
Qed.

Lemma join_app (ps qs : list str) :
  ps <> [] -> qs <> [] ->
  join sep (ps ++ qs) = join sep ps ++ sep :: join sep qs.
Proof.
  induction ps as [|p ps IH]; intros Hp Hq; [congruence|].
  destruct ps as [|p' ps].
  - simpl app. now rewrite join_cons.
  - change ((p :: p' :: ps) ++ qs) with (p :: ((p' :: ps) ++ qs)).
    rewrite join_cons by discriminate.
    rewrite IH by (discriminate || assumption).
    rewrite (join_cons p) by discriminate.
    now rewrite <- app_assoc.
Qed.

Lemma join_snoc (ps : list str) (q : str) :
  ps <> [] -> join sep (ps ++ [q]) = join sep ps ++ sep :: q.
Proof. intros H. now rewrite join_app by (assumption || discriminate). Qed.

Lemma split_join (ps : list str) :
  ps <> [] -> Forall (free_of sep) ps -> split sep (join sep ps) = ps.
Proof.
  induction ps as [|p ps IH]; intros Hne Hall; [congruence|].
  inversion Hall as [|? ? Hp Hps]; subst.
  destruct ps as [|q ps].
  - simpl. now apply split_free.
  - rewrite join_cons by discriminate.
    rewrite split_app_sep, split_free by assumption.
    rewrite IH by (discriminate || assumption).
    reflexivity.
Qed.

End SplitJoin.

(** ** Stripping *)

Lemma lstrip_incl (s : str) (c : ascii) : In c (lstrip s) -> In c s.
Proof.
  induction s as [|d s IH]; simpl; [auto|].
  destruct (isspace d); auto.
Qed.

Lemma strip_incl (s : str) (c : ascii) : In c (strip s) -> In c s.
Proof.
  unfold strip, rstrip. intros H.
  apply lstrip_incl. apply in_rev.
  apply lstrip_incl. now apply in_rev.
Qed.

(** A string that begins and ends with a character that is not white
    space is its own [strip]. *)
Lemma lstrip_head (c : ascii) (s : str) :
  isspace c = false -> lstrip (c :: s) = c :: s.
Proof. intros H. simpl. now rewrite H. Qed.

Lemma rstrip_last (s : str) (c : ascii) :
  isspace c = false -> rstrip (s ++ [c]) = s ++ [c].
Proof.
  intros H. unfold rstrip. rewrite rev_app_distr. simpl.
  rewrite H. simpl. now rewrite rev_involutive.
Qed.

Lemma strip_fixed (c d : ascii) (s : str) :
  isspace c = false -> isspace d = false ->
  strip (c :: s ++ [d]) = c :: s ++ [d].
Proof.
  intros Hc Hd. unfold strip. rewrite lstrip_head by assumption.
  change (c :: s ++ [d]) with ((c :: s) ++ [d]).
  now apply rstrip_last.
Qed.

(** ** The line wrapper *)

Lemma truthy_true (s : str) : truthy s = true <-> s <> [].
Proof. destruct s; simpl; split; congruence. Qed.

Lemma wrap_loop_app (width : Z) (ws1 ws2 : list str) st :
  wrap_loop width (ws1 ++ ws2) st
  = wrap_loop width ws2 (wrap_loop width ws1 st).
Proof. apply fold_left_app. Qed.

Lemma wrap_line_long (line : str) (width : Z) :
  (width < len line)%Z -> line <> [] ->
  wrap_line line width
  = wrap_finish (wrap_loop width (split space line) ([], [])).
Proof.
  intros Hlen Hne. unfold wrap_line.
  destruct line; [congruence|]. cbn [truthy negb].
  destruct (Z.leb_spec (len (a :: line)) width); [lia|reflexivity].
Qed.

Lemma wrap_loop_cons (width : Z) (w : str) (ws : list str) st :
  wrap_loop width (w :: ws) st = wrap_loop width ws (wrap_step width st w).
Proof. reflexivity. Qed.

Lemma wrap_step_empty (width : Z) lines (cur : str) :
  cur <> [] -> wrap_step width (lines, cur) [] = (lines, cur ++ [space]).
Proof. destruct cur; [congruence|reflexivity]. Qed.


Lemma repeat_snoc {A : Type} (x : A) (k : nat) :
  repeat x k ++ [x] = x :: repeat x k.
Proof. induction k; simpl; [reflexivity|]. now rewrite IHk. Qed.

(** A word without spaces that is longer than the width, wrapped on its
    own, comes back as the only output line. *)
Lemma wrap_line_long_word (word : str) (width : Z)
  (Hfree : free_of space word) (Hlong : (width < len word)%Z) :
  wrap_line word width = [word].
Proof.
  destruct word as [|c word]; [reflexivity|].
  rewrite wrap_line_long by (assumption || discriminate).
  rewrite split_free by assumption.
  cbn [wrap_loop fold_left wrap_step truthy negb].
  destruct (Z.leb_spec (len (c :: word)) width); [lia|].
  reflexivity.
Qed.





(** C2 at a failing input.  A space typed after a word that fills the
    width is appended to the current line without any check of the width:
    the only output line is five characters long at width four, and it is
    not a single word, for it contains a space.  At the body width, 72
    letters, two spaces and a word give a first line of 73 characters. *)
Theorem wrap_line_trailing_space_overflow :
  wrap_line (lit "abcd ") 4 = [lit "abcd "]
  /\ (4 < len (lit "abcd "))%Z
  /\ In space (lit "abcd ")
  /\ wrap_line (repeat "a"%char 72 ++ lit "  b") BODY_MAX_LENGTH
     = [repeat "a"%char 72 ++ [space]; lit "b"]
  /\ (BODY_MAX_LENGTH < len (repeat "a"%char 72 ++ [space]))%Z.
Proof.
  split; [reflexivity|]. split; [vm_compute; reflexivity|].
  split; [simpl; tauto|]. split; vm_compute; reflexivity.
Qed.

(** ** The lengths of the wrapped lines *)

Section Bounds.

Variables (line : str) (width : Z).
Hypothesis width_nonneg : (0 <= width)%Z.

Lemma within_bound_nil : within_bound line width [].
Proof. exists [], 0. split; [reflexivity|left; exact width_nonneg]. Qed.

Lemma within_bound_short (out : str) :
  (len out <= width)%Z -> within_bound line width out.
Proof. intros H. exists out, 0. rewrite app_nil_r. auto. Qed.

Lemma within_bound_word (w : str) :
  In w (split space line) -> within_bound line width w.
Proof. intros H. exists w, 0. rewrite app_nil_r. auto. Qed.

Lemma within_bound_space (out : str) :
  within_bound line width out -> within_bound line width (out ++ [space]).
Proof.
  intros (base & k & -> & H). exists base, (S k). split; [|exact H].
  rewrite <- app_assoc, repeat_snoc. reflexivity.
Qed.

Lemma wrap_step_bound (lines : list str) (cur w : str) :
  Forall (within_bound line width) lines -> within_bound line width cur ->
  In w (split space line) ->
  Forall (within_bound line width) (fst (wrap_step width (lines, cur) w))
  /\ within_bound line width (snd (wrap_step width (lines, cur) w)).
Proof.
  intros Hlines Hcur Hw. unfold wrap_step.
  destruct (truthy w); cbn [negb].
  - destruct (truthy cur).
    + destruct (Z.leb_spec (len (strip (cur ++ space :: w))) width);
        cbn [fst snd].
      * split; [assumption|now apply within_bound_short].
      * split; [|now apply within_bound_word].
        apply Forall_app. split; [assumption|now constructor].
    + destruct (Z.leb_spec (len w) width); cbn [fst snd];
        (split; [assumption|now apply within_bound_word]).
  - destruct (truthy cur); cbn [fst snd];
      (split; [assumption|]); [now apply within_bound_space|assumption].
Qed.

Lemma wrap_loop_bound (ws : list str) :
  (forall w, In w ws -> In w (split space line)) ->
  forall lines cur,
  Forall (within_bound line width) lines -> within_bound line width cur ->
  Forall (within_bound line width) (fst (wrap_loop width ws (lines, cur)))
  /\ within_bound line width (snd (wrap_loop width ws (lines, cur))).
Proof.
  induction ws as [|w ws IH]; intros Hws lines cur Hlines Hcur.
  - now split.
  - rewrite wrap_loop_cons.
    destruct (wrap_step_bound lines cur w Hlines Hcur) as [H1 H2].
    { apply Hws. now left. }
    destruct (wrap_step width (lines, cur) w) as [lines' cur'].
    apply IH; [|assumption|assumption].
    intros v Hv. apply Hws. now right.
Qed.

(** X13.  What the wrapper does guarantee, at a width that is not
    negative: every output line is a string of at most [width] characters,
    or a word of the input, followed by the spaces that came after it. *)
Lemma wrap_line_within_bound :
  Forall (within_bound line width) (wrap_line line width).
Proof.
  unfold wrap_line.
  destruct (truthy line); cbn [negb];
    [|constructor; [apply within_bound_nil|constructor]].
  destruct (Z.leb_spec (len line) width).
  { constructor; [now apply within_bound_short|constructor]. }
  destruct (wrap_loop_bound (split space line) (fun w H => H) [] [])
    as [H1 H2]; [constructor|apply within_bound_nil|].
  destruct (wrap_loop width (split space line) ([], [])) as [lines cur].
  cbn [fst snd] in *. unfold wrap_finish.
  assert (H3 : Forall (within_bound line width) (lines ++ [cur])).
  { apply Forall_app. split; [assumption|now constructor]. }
  destruct (truthy cur).
  - destruct (lines ++ [cur]);
      [constructor; [apply within_bound_nil|constructor]|assumption].
  - destruct lines;
      [constructor; [apply within_bound_nil|constructor]|assumption].
Qed.

(** On a line without an empty word, that is without a space at either
    end and without two spaces in a row, no space is appended: every
    output line is at most [width] long or is a word of the line. *)
Lemma wrap_loop_single_spaced (ws : list str) :
  (forall w, In w ws -> w <> [] /\ In w (split space line)) ->
  forall lines cur,
  let ok out := (len out <= width)%Z \/ In out (split space line) in
  Forall ok lines -> ok cur ->
  Forall ok (fst (wrap_loop width ws (lines, cur)))
  /\ ok (snd (wrap_loop width ws (lines, cur))).
Proof.
  intros Hws lines cur ok. revert Hws lines cur.
  induction ws as [|w ws IH]; intros Hws lines cur Hlines Hcur.
  - now split.
  - rewrite wrap_loop_cons.
    destruct (Hws w (or_introl eq_refl)) as [Hne Hin].
    apply truthy_true in Hne.
    assert (IH' : forall st, Forall ok (fst st) -> ok (snd st) ->
                  Forall ok (fst (wrap_loop width ws st))
                  /\ ok (snd (wrap_loop width ws st))).
    { intros [l c]. apply IH. intros v Hv. apply Hws. now right. }
    apply IH'; unfold wrap_step; rewrite Hne; cbn [negb];
      destruct (truthy cur);
      match goal with
      | |- context [(?a <=? ?b)%Z] => destruct (Z.leb_spec a b)
      end; cbn [fst snd]; unfold ok; auto.
    apply Forall_app. split; [assumption|now constructor].
Qed.

(** X14.  At a width that is not negative, on a line that has no empty
    word (no space at either end, no two spaces in a row), every output
    line is at most [width] long or is a single word of the line. *)
Lemma wrap_line_single_spaced :
  ~ In [] (split space line) ->
  Forall (fun out => (len out <= width)%Z \/ In out (split space line))
    (wrap_line line width).
Proof.
  intros Hsingle.
  assert (Hnil : (len [] <= width)%Z \/ In [] (split space line))
    by (left; exact width_nonneg).
  unfold wrap_line.
  destruct (truthy line); cbn [negb]; [|now repeat constructor].
  destruct (Z.leb_spec (len line) width); [now repeat constructor|].
  destruct (wrap_loop_single_spaced (split space line)) with
    (lines := @nil str) (cur := @nil ascii) as [H1 H2];
    [|constructor|exact Hnil|].
  { intros w Hw. split; [|assumption]. intros ->. now apply Hsingle. }
  destruct (wrap_loop width (split space line) ([], [])) as [lines cur].
  cbn [fst snd] in *. unfold wrap_finish.
  destruct (truthy cur).
  - assert (H3 : Forall
                   (fun out => (len out <= width)%Z
                               \/ In out (split space line))
                   (lines ++ [cur])).
    { apply Forall_app. split; [assumption|now constructor]. }
    destruct (lines ++ [cur]); [now repeat constructor|assumption].
  - destruct lines; [now repeat constructor|assumption].
Qed.

End Bounds.

(** ** Wrapping again what was wrapped *)

Lemma join_join_tail (sep : ascii) (w : str) (ws : list str) :
  join sep (w :: ws) = w ++ join_tail sep ws.
Proof.
  revert w. induction ws as [|v ws IH]; intros w.
  - simpl. now rewrite app_nil_r.
  - rewrite join_cons by discriminate. now rewrite IH.
Qed.

Lemma join_last_app (sep : ascii) (ls : list str) (a b : str) :
  join sep (ls ++ [a ++ b]) = join sep (ls ++ [a]) ++ b.
Proof.
  destruct ls as [|l ls]; [reflexivity|].
  rewrite !join_snoc by discriminate.
  rewrite <- app_assoc. reflexivity.
Qed.

Lemma in_split (sep : ascii) (s w : str) (c : ascii) :
  In w (split sep s) -> In c w -> In c s.
Proof.
  revert w. induction s as [|d s IH]; intros w; simpl.
  - intros [<-|[]] [].
  - destruct (Ascii.eqb d sep).
    + intros [<-|H] Hc; [destruct Hc|]. right. eauto.
    + destruct (split sep s) as [|v vs].
      * intros [<-|[]] [<-|[]]. now left.
      * intros [<-|H] Hc.
        -- destruct Hc as [<-|Hc]; [now left|]. right.
           apply (IH v); [now left|assumption].
        -- right. apply (IH w); [now right|assumption].
Qed.

(** The words of a line whose only white space is the space are solid. *)
Lemma words_solid (s : str) :
  plain_spaces s -> Forall solid (split space s).
Proof.
  intros Hs. apply Forall_forall. intros w Hw c Hc.
  destruct (isspace c) eqn:E; [|reflexivity].
  assert (c = space) as ->.
  { apply Hs; [|assumption]. eapply in_split; eassumption. }
  pose proof (split_pieces_free space s) as Hfree.
  rewrite Forall_forall in Hfree. now apply Hfree in Hw.
Qed.

Lemma solid_free (w : str) : solid w -> free_of space w.
Proof. intros H Hin. apply H in Hin. discriminate. Qed.

Section Rewrap.

Variable width : Z.

Lemma solid_headed (w : str) : solid w -> headed w.
Proof. destruct w; simpl; [auto|]. intros H. apply H. now left. Qed.

(** On such a current line and a solid word, the call of [strip] changes
    nothing. *)
Lemma strip_joined (cur word : str) :
  cur <> [] -> headed cur -> word <> [] -> solid word ->
  strip (cur ++ space :: word) = cur ++ space :: word.
Proof.
  intros Hcur Hhead Hword Hsolid.
  destruct cur as [|c cur]; [congruence|].
  destruct (exists_last Hword) as (w & d & ->).
  replace ((c :: cur) ++ space :: w ++ [d])
    with (c :: (cur ++ space :: w) ++ [d])
    by (simpl; now rewrite <- app_assoc).
  apply strip_fixed; [exact Hhead|].
  apply Hsolid. apply in_or_app. right. now left.
Qed.

Lemma wrap_step_word (lines : list str) (cur word : str) :
  cur <> [] -> headed cur -> word <> [] -> solid word ->
  wrap_step width (lines, cur) word
  = if (len (cur ++ space :: word) <=? width)%Z
    then (lines, cur ++ space :: word)
    else (lines ++ [cur], word).
Proof.
  intros Hcur Hhead Hword Hsolid. unfold wrap_step.
  apply truthy_true in Hcur as Hc. apply truthy_true in Hword as Hw.
  rewrite Hc, Hw. cbn [negb].
  now rewrite strip_joined.
Qed.

(** The output of the loop, joined with spaces, is the current state
    joined with the words still to come. *)
Lemma wrap_loop_join (ws : list str) :
  Forall solid ws ->
  forall lines cur, cur <> [] -> headed cur ->
  exists lines' cur',
    wrap_loop width ws (lines, cur) = (lines', cur')
    /\ cur' <> []
    /\ join space (lines' ++ [cur'])
       = join space (lines ++ [cur]) ++ join_tail space ws.
Proof.
  induction 1 as [|w ws Hw Hws IH]; intros lines cur Hcur Hhead.
  - exists lines, cur. simpl. now rewrite app_nil_r.
  - rewrite wrap_loop_cons.
    destruct w as [|c w].
    + rewrite wrap_step_empty by assumption.
      destruct (IH lines (cur ++ [space])) as (lines' & cur' & E & Hne & J).
      { now destruct cur. }
      { destruct cur; [congruence|exact Hhead]. }
      exists lines', cur'. repeat split; try assumption.
      rewrite J, join_last_app, <- app_assoc. reflexivity.
    + rewrite wrap_step_word by (assumption || discriminate).
      destruct (len (cur ++ space :: c :: w) <=? width)%Z.
      * destruct (IH lines (cur ++ space :: c :: w))
          as (lines' & cur' & E & Hne & J).
        { now destruct cur. }
        { destruct cur; [congruence|exact Hhead]. }
        exists lines', cur'. repeat split; try assumption.
        rewrite J, join_last_app, <- app_assoc. reflexivity.
      * destruct (IH (lines ++ [cur]) (c :: w))
          as (lines' & cur' & E & Hne & J).
        { discriminate. }
        { now apply solid_headed. }
        exists lines', cur'. repeat split; try assumption.
        rewrite J, join_snoc by (now destruct lines).
        rewrite <- app_assoc. reflexivity.
Qed.

(** When all that is left fits the width, nothing is flushed. *)
Lemma wrap_loop_fits (ws : list str) :
  Forall solid ws ->
  forall lines cur, cur <> [] -> headed cur ->
  (len (cur ++ join_tail space ws) <= width)%Z ->
  wrap_loop width ws (lines, cur) = (lines, cur ++ join_tail space ws).
Proof.
  induction 1 as [|w ws Hw Hws IH]; intros lines cur Hcur Hhead Hlen.
  - simpl. now rewrite app_nil_r.
  - rewrite wrap_loop_cons.
    assert (E : cur ++ join_tail space (w :: ws)
                = (cur ++ space :: w) ++ join_tail space ws).
    { simpl. now rewrite <- app_assoc. }
    rewrite E in *.
    assert (Hhead' : headed (cur ++ space :: w)).
    { destruct cur; [congruence|exact Hhead]. }
    assert (Hne : cur ++ space :: w <> []) by (now destruct cur).
    destruct w as [|c w].
    + rewrite wrap_step_empty by assumption. now apply IH.
    + rewrite wrap_step_word by (assumption || discriminate).
      destruct (Z.leb_spec (len (cur ++ space :: c :: w)) width) as [_|Hgt].
      * now apply IH.
      * unfold len in *. rewrite length_app in Hlen. lia.
Qed.

End Rewrap.

Lemma dropwhile_Forall {A : Type} (P : A -> Prop) (p : A -> bool)
  (l : list A) : Forall P l -> Forall P (dropwhile p l).
Proof.
  induction 1 as [|x l Hx Hl IH]; simpl; [constructor|].
  destruct (p x); [assumption|now constructor].
Qed.

Lemma dropwhile_head {A : Type} (p : A -> bool) (l r : list A) (x : A) :
  dropwhile p l = x :: r -> p x = false.
Proof.
  induction l as [|y l IH]; simpl; [discriminate|].
  destruct (p y) eqn:E; [assumption|].
  intros [= -> _]. exact E.
Qed.

(** The empty words before the first word leave the initial state as it
    is. *)
Lemma wrap_loop_skip_empty (width : Z) (ws lines : list str) :
  wrap_loop width ws (lines, [])
  = wrap_loop width (dropwhile (fun w => negb (truthy w)) ws) (lines, []).
Proof.
  induction ws as [|w ws IH]; [reflexivity|].
  simpl dropwhile. destruct w as [|c w]; [|reflexivity].
  cbn [truthy negb]. rewrite wrap_loop_cons. exact IH.
Qed.

(** The first word becomes the current line, whether it fits or not. *)
Lemma wrap_step_first (width : Z) (lines : list str) (w : str) :
  w <> [] -> wrap_step width (lines, []) w = (lines, w).
Proof.
  intros Hw. unfold wrap_step. apply truthy_true in Hw. rewrite Hw.
  cbn [negb truthy]. now destruct (len w <=? width)%Z.
Qed.

(** C8, as the code has it.  On a line whose only white space is the
    space character and of which no word exceeds the width, wrapping the
    space-joined output at the same width returns the output.  The joined
    output is the line without the spaces before its first word; the
    proof does not need the bound on the words. *)
Theorem wrap_line_idempotent (s : str) (width : Z)
  (Hplain : plain_spaces s)
  (Hwords : Forall (fun w => (len w <= width)%Z) (split space s)) :
  wrap_line (join space (wrap_line s width)) width = wrap_line s width.
Proof.
  destruct s as [|c0 s0] eqn:Es; [reflexivity|]. rewrite <- Es in *.
  assert (Hne : s <> []) by (subst; discriminate).
  destruct (Z.leb_spec (len s) width) as [Hle|Hgt].
  - assert (E : wrap_line s width = [s]).
    { unfold wrap_line. subst s. cbn [truthy negb].
      destruct (Z.leb_spec (len (c0 :: s0)) width); [reflexivity|lia]. }
    rewrite E. simpl. exact E.
  - rewrite (wrap_line_long s) by assumption.
    rewrite wrap_loop_skip_empty.
    pose proof (dropwhile_Forall solid (fun w => negb (truthy w)) _
                  (words_solid s Hplain)) as Hsolid.
    destruct (dropwhile (fun w => negb (truthy w)) (split space s))
      as [|w1 rest] eqn:Ed; [reflexivity|].
    apply dropwhile_head in Ed as Hw1.
    apply negb_false_iff, truthy_true in Hw1.
    inversion Hsolid as [|? ? Hs1 Hrest]; subst w1 rest.
    rename x into w1, l into rest.
    rewrite wrap_loop_cons, wrap_step_first by assumption.
    destruct (wrap_loop_join width rest Hrest [] w1 Hw1 (solid_headed _ Hs1))
      as (lines' & cur' & E & Hcur' & J).
    rewrite E.
    assert (F : wrap_finish (lines', cur') = lines' ++ [cur']).
    { unfold wrap_finish. apply truthy_true in Hcur'. rewrite Hcur'.
      now destruct lines'. }
    rewrite F, J. cbn [app join].
    set (s' := w1 ++ join_tail space rest).
    assert (Hs' : s' <> []) by (subst s'; now destruct w1).
    destruct (Z.leb_spec (len s') width) as [Hfit|Hlong].
    + rewrite (wrap_loop_fits width rest Hrest [] w1 Hw1
                 (solid_headed _ Hs1) Hfit) in E.
      injection E as <- <-. fold s'.
      unfold wrap_line. apply truthy_true in Hs'. rewrite Hs'. cbn [negb].
      destruct (Z.leb_spec (len s') width); [reflexivity|lia].
    + rewrite wrap_line_long by assumption.
      unfold s'. rewrite <- join_join_tail.
      rewrite split_join.
      * rewrite wrap_loop_cons, wrap_step_first, E by assumption.
        exact F.
      * discriminate.
      * eapply Forall_impl; [|exact Hsolid]. apply solid_free.
Qed.

Lemma wrap_line_idempotent_witness :
  plain_spaces (lit "aa bb cc")
  /\ Forall (fun w => (len w <= 5)%Z) (split space (lit "aa bb cc"))
  /\ wrap_line (join space (wrap_line (lit "aa bb cc") 5)) 5
     = [lit "aa bb"; lit "cc"].
Proof.
  assert (H1 : plain_spaces (lit "aa bb cc")).
  { intros c Hc Hsp. simpl in Hc.
    repeat (destruct Hc as [<-|Hc]; [reflexivity || discriminate|]).
    destruct Hc. }
  assert (H2 : Forall (fun w => (len w <= 5)%Z)
                 (split space (lit "aa bb cc"))).
  { repeat constructor; discriminate. }
  split; [exact H1|]. split; [exact H2|].
  exact (wrap_line_idempotent (lit "aa bb cc") 5 H1 H2).
Defined.

(** The claim C8 as it is worded fails on a word that begins with a tab:
    the tab ends up at the head of the current line and the next call of
    [strip] removes it, so the second pass sees a shorter word. *)
Lemma wrap_line_not_idempotent_tab :
  let s := lit "ab " ++ "009"%char :: lit "x y" in
  Forall (fun w => (len w <= 4)%Z) (split space s)
  /\ wrap_line s 4 = [lit "ab"; lit "x y"]
  /\ wrap_line (join space (wrap_line s 4)) 4 = [lit "ab x"; lit "y"]
  /\ wrap_line (join space (wrap_line s 4)) 4 <> wrap_line s 4.
Proof.
  cbv zeta. split; [repeat constructor; discriminate|].
  split; [reflexivity|]. split; [reflexivity|]. discriminate.
Qed.

(** ** The characters of the wrapped lines *)

Lemma chars_from_word (line w : str) :
  In w (split space line) -> chars_from line w.
Proof. intros Hw c Hc. left. eapply in_split; eassumption. Qed.

Lemma wrap_step_chars (line : str) (width : Z) (lines : list str)
  (cur w : str) :
  Forall (chars_from line) lines -> chars_from line cur ->
  chars_from line w ->
  Forall (chars_from line) (fst (wrap_step width (lines, cur) w))
  /\ chars_from line (snd (wrap_step width (lines, cur) w)).
Proof.
  intros Hlines Hcur Hw.
  assert (Hsp : chars_from line (cur ++ [space])).
  { intros c Hc. apply in_app_or in Hc as [Hc|[<-|[]]]; auto. }
  assert (Hj : chars_from line (strip (cur ++ space :: w))).
  { intros c Hc. apply strip_incl, in_app_or in Hc as [Hc|[<-|Hc]]; auto. }
  assert (Hfl : Forall (chars_from line) (lines ++ [cur])).
  { apply Forall_app. split; [assumption|now constructor]. }
  unfold wrap_step.
  destruct (truthy w), (truthy cur); cbn [negb];
    repeat match goal with
           | |- context [(?a <=? ?b)%Z] => destruct (a <=? b)%Z
           end; cbn [fst snd]; auto.
Qed.

Lemma wrap_loop_chars (line : str) (width : Z) (ws : list str) :
  Forall (chars_from line) ws ->
  forall lines cur,
  Forall (chars_from line) lines -> chars_from line cur ->
  Forall (chars_from line) (fst (wrap_loop width ws (lines, cur)))
  /\ chars_from line (snd (wrap_loop width ws (lines, cur))).
Proof.
  induction 1 as [|w ws Hw Hws IH]; intros lines cur Hlines Hcur.
  - now split.
  - rewrite wrap_loop_cons.
    destruct (wrap_step_chars line width lines cur w Hlines Hcur Hw)
      as [H1 H2].
    destruct (wrap_step width (lines, cur) w) as [lines' cur'].
    now apply IH.
Qed.

Lemma wrap_line_chars (line : str) (width : Z) :
  Forall (chars_from line) (wrap_line line width).
Proof.
  assert (Hnil : chars_from line []) by (intros c []).
  unfold wrap_line.
  destruct (truthy line); cbn [negb]; [|now repeat constructor].
  destruct (len line <=? width)%Z.
  { constructor; [|constructor]. intros c Hc. now left. }
  destruct (wrap_loop_chars line width (split space line)) with
    (lines := @nil str) (cur := @nil ascii) as [H1 H2]; auto.
  { apply Forall_forall. intros w Hw. now apply chars_from_word. }
  destruct (wrap_loop width (split space line) ([], [])) as [lines cur].
  cbn [fst snd] in *. unfold wrap_finish.
  assert (H3 : Forall (chars_from line) (lines ++ [cur])).
  { apply Forall_app. split; [assumption|now constructor]. }
  destruct (truthy cur).
  - destruct (lines ++ [cur]); [now repeat constructor|assumption].
  - destruct lines; [now repeat constructor|assumption].
Qed.

(** Wrapping a line of the document yields lines of a document: none
    contains a line break. *)
Lemma wrap_line_no_newline (line : str) (width : Z) :
  free_of newline line ->
  Forall (free_of newline) (wrap_line line width).
Proof.
  intros Hfree. eapply Forall_impl; [|apply wrap_line_chars].
  intros out Hout Hin. apply Hout in Hin as [Hin|Hin]; [auto|discriminate].
Qed.

Lemma wrap_line_not_nil (line : str) (width : Z) :
  wrap_line line width <> [].
Proof.
  unfold wrap_line.
  destruct (truthy line); cbn [negb]; [|discriminate].
  destruct (len line <=? width)%Z; [discriminate|].
  destruct (wrap_loop width (split space line) ([], [])) as [lines cur].
  unfold wrap_finish.
  destruct (truthy cur).
  - destruct lines; discriminate.
  - destruct lines; discriminate.
Qed.

(** ** The auto-wrap controller *)

Lemma Forall_firstn_skipn {A : Type} (P : A -> Prop) (n : nat)
  (l : list A) :
  Forall P l -> Forall P (firstn n l) /\ Forall P (skipn n l).
Proof. intros H. apply Forall_app. now rewrite firstn_skipn. Qed.

Lemma document_lines_join (lines : list str) :
  lines <> [] -> Forall (free_of newline) lines ->
  document_lines (join newline lines) = lines.
Proof. apply split_join. Qed.

Lemma auto_wrap_noop (ed : CommitTextArea) :
  auto_wrap_acts ed = false -> wrap_current_body_line ed = ed.
Proof.
  unfold auto_wrap_acts, wrap_current_body_line.
  destruct (cursor_location ed) as [row col].
  rewrite (Nat.ltb_antisym 2 row),
    (Nat.leb_antisym row (length (document_lines (text ed)))),
    (Z.leb_antisym BODY_MAX_LENGTH), (Nat.leb_antisym 1).
  destruct (2 <=? row), (row <? length (document_lines (text ed))),
    (BODY_MAX_LENGTH <? len (nth row (document_lines (text ed)) []))%Z,
    (1 <? length (wrap_line (nth row (document_lines (text ed)) [])
                    BODY_MAX_LENGTH));
    cbn [andb orb negb]; intros H; try reflexivity; discriminate.
Qed.

Lemma auto_wrap_conditions (ed : CommitTextArea) :
  auto_wrap_acts ed = true <->
  let row := fst (cursor_location ed) in
  let lines := document_lines (text ed) in
  2 <= row /\ row < length lines
  /\ (BODY_MAX_LENGTH < len (nth row lines []))%Z
  /\ 1 < length (wrap_line (nth row lines []) BODY_MAX_LENGTH).
Proof.
  unfold auto_wrap_acts. destruct (cursor_location ed) as [row col].
  cbn [fst]. rewrite !andb_true_iff, Nat.leb_le, !Nat.ltb_lt, Z.ltb_lt.
  tauto.
Qed.

Lemma auto_wrap_result (ed : CommitTextArea) :
  auto_wrap_acts ed = true ->
  let row := fst (cursor_location ed) in
  let col := snd (cursor_location ed) in
  let lines := document_lines (text ed) in
  let wrapped := wrap_line (nth row lines []) BODY_MAX_LENGTH in
  let first := nth 0 wrapped [] in
  wrap_current_body_line ed
  = load_text
      (join newline (firstn row lines ++ wrapped ++ skipn (row + 1) lines))
      (if length first <? col
       then (row + 1, Nat.min (col - length first - 1)
                        (length (nth 1 wrapped [])))
       else (row, col)).
Proof.
  intros Hacts. apply auto_wrap_conditions in Hacts. revert Hacts.
  unfold wrap_current_body_line.
  destruct (cursor_location ed) as [row col]. cbn [fst snd].
  intros (H2 & Hrow & Hlen & Hwr).
  destruct (Nat.ltb_spec row 2); [lia|].
  destruct (Nat.leb_spec (length (document_lines (text ed))) row); [lia|].
  cbn [orb].
  destruct (Z.leb_spec (len (nth row (document_lines (text ed)) []))
              BODY_MAX_LENGTH); [lia|].
  destruct (Nat.leb_spec
              (length (wrap_line (nth row (document_lines (text ed)) [])
                         BODY_MAX_LENGTH)) 1); [lia|].
  destruct (Nat.ltb_spec 1
              (length (wrap_line (nth row (document_lines (text ed)) [])
                         BODY_MAX_LENGTH))); [|lia].
  reflexivity.
Qed.

(** The lines of the buffer after the controller acted. *)
Lemma auto_wrap_lines (ed : CommitTextArea) :
  auto_wrap_acts ed = true ->
  let row := fst (cursor_location ed) in
  let lines := document_lines (text ed) in
  document_lines (text (wrap_current_body_line ed))
  = firstn row lines
    ++ wrap_line (nth row lines []) BODY_MAX_LENGTH
    ++ skipn (S row) lines.
Proof.
  intros Hacts. cbv zeta. rewrite auto_wrap_result by assumption.
  cbn [load_text text]. rewrite Nat.add_1_r.
  apply auto_wrap_conditions in Hacts as (_ & Hrow & _ & _).
  pose proof (split_pieces_free newline (text ed)) as Hfree.
  fold (document_lines (text ed)) in Hfree.
  apply document_lines_join.
  - intros E. apply app_eq_nil in E as [_ E].
    apply app_eq_nil in E as [E _]. now apply wrap_line_not_nil in E.
  - apply Forall_app. split; [now apply Forall_firstn_skipn|].
    apply Forall_app. split; [|now apply Forall_firstn_skipn].
    apply wrap_line_no_newline.
    rewrite Forall_forall in Hfree. apply Hfree. now apply nth_In.
Qed.

Lemma nth_middle_app {A : Type} (l1 l2 l3 : list A) (i : nat) (d : A) :
  i < length l2 ->
  nth (length l1 + i) (l1 ++ l2 ++ l3) d = nth i l2 d.
Proof.
  intros Hi. rewrite app_nth2_plus. now apply app_nth1.
Qed.

Lemma auto_wrap_nth (ed : CommitTextArea) (i : nat) :
  auto_wrap_acts ed = true ->
  let row := fst (cursor_location ed) in
  let wrapped :=
    wrap_line (nth row (document_lines (text ed)) []) BODY_MAX_LENGTH in
  i < length wrapped ->
  nth (row + i) (document_lines (text (wrap_current_body_line ed))) []
  = nth i wrapped [].
Proof.
  intros Hacts row wrapped Hi.
  rewrite auto_wrap_lines by assumption. fold row. fold wrapped.
  apply auto_wrap_conditions in Hacts as (_ & Hrow & _ & _).
  replace (row + i)
    with (length (firstn row (document_lines (text ed))) + i).
  - now apply nth_middle_app.
  - rewrite length_firstn. fold row. lia.
Qed.

(** C5.  [wrap_current_body_line] leaves the editor as it is unless the
    cursor row is at least 2 and below the number of lines, the line at
    that row is longer than 72 and wrapping it gives more than one
    segment.  When all four hold, the line is replaced by its wrapped
    segments; the cursor keeps its place when its column is at most the
    length of the first segment, and otherwise goes to the next row, at
    the column [col - length first - 1] clamped between 0 and the length
    of that row. *)
Theorem wrap_current_body_line_spec (ed : CommitTextArea) :
  let row := fst (cursor_location ed) in
  let col := snd (cursor_location ed) in
  let lines := document_lines (text ed) in
  let wrapped := wrap_line (nth row lines []) BODY_MAX_LENGTH in
  let first := nth 0 wrapped [] in
  let ed' := wrap_current_body_line ed in
  let new_lines := document_lines (text ed') in
  let acts :=
    2 <= row /\ row < length lines
    /\ (72 < len (nth row lines []))%Z /\ 1 < length wrapped in
  (~ acts -> ed' = ed)
  /\ (acts ->
      new_lines = firstn row lines ++ wrapped ++ skipn (S row) lines
      /\ (col <= length first -> cursor_location ed' = (row, col))
      /\ (length first < col ->
          fst (cursor_location ed') = row + 1
          /\ Z.of_nat (snd (cursor_location ed'))
             = Z.max 0
                 (Z.min (Z.of_nat col - Z.of_nat (length first) - 1)
                    (Z.of_nat (length (nth (row + 1) new_lines [])))))).
Proof.
  intros row col lines wrapped first ed' new_lines acts.
  assert (Hiff : auto_wrap_acts ed = true <-> acts)
    by apply auto_wrap_conditions.
  split.
  - intros Hno. apply auto_wrap_noop.
    destruct (auto_wrap_acts ed); [|reflexivity].
    exfalso. apply Hno. now apply Hiff.
  - intros Hacts. apply Hiff in Hacts as Ha.
    split; [now apply auto_wrap_lines|].
    destruct Hacts as (_ & _ & _ & Hwr).
    unfold new_lines, ed'.
    pose proof (auto_wrap_nth ed 1 Ha Hwr) as Hnth.
    pose proof (auto_wrap_result ed Ha) as Hres.
    cbv zeta in Hnth, Hres. fold row col lines wrapped first in Hnth, Hres.
    rewrite Hnth, Hres. cbn [load_text cursor_location].
    split.
    + intros Hcol. destruct (Nat.ltb_spec (length first) col); [lia|].
      reflexivity.
    + intros Hcol. destruct (Nat.ltb_spec (length first) col); [|lia].
      cbn [fst snd]. split; [reflexivity|]. lia.
Qed.

(** The controller at work: a body line of two words of forty letters,
    with the cursor at its end. *)
Example auto_wrap_two_words :
  let body := repeat "a"%char 40 ++ space :: repeat "b"%char 40 in
  let ed :=
    {| text := lit "Title" ++ newline :: newline :: body;
       cursor_location := (2, 81) |} in
  document_lines (text (wrap_current_body_line ed))
  = [lit "Title"; []; repeat "a"%char 40; repeat "b"%char 40]
  /\ cursor_location (wrap_current_body_line ed) = (3, 40).
Proof. vm_compute. split; reflexivity. Qed.

(** ** The trailer toggle: trailing blank lines *)

Module Toggle.

Lemma pop_blank_snoc (l : list str) (x : str) :
  pop_blank (l ++ [x]) = if is_blank x then pop_blank l else l ++ [x].
Proof.
  unfold pop_blank. rewrite rev_app_distr. simpl.
  destruct (is_blank x); [reflexivity|].
  simpl. now rewrite rev_involutive.
Qed.

Lemma pop_blank_app_blanks (l blanks : list str) :
  Forall (fun b => is_blank b = true) blanks ->
  pop_blank (l ++ blanks) = pop_blank l.
Proof.
  induction blanks as [|b blanks IH] using rev_ind; intros H.
  - now rewrite app_nil_r.
  - apply Forall_app in H as [Hbl Hb]. inversion Hb; subst.
    rewrite app_assoc, pop_blank_snoc.
    replace (is_blank b) with true by auto. now apply IH.
Qed.

(** A list that is empty or ends with a line that is not blank is left
    as it is. *)
Lemma pop_blank_fixed (l : list str) :
  is_blank (last l []) = false -> pop_blank l = l.
Proof.
  destruct l as [|x l] using rev_ind; [reflexivity|].
  rewrite last_last, pop_blank_snoc. now intros ->.
Qed.

Lemma pop_blank_last (l : list str) :
  pop_blank l <> [] -> is_blank (last (pop_blank l) []) = false.
Proof.
  induction l as [|x l IH] using rev_ind;
    [intros H; exfalso; now apply H|].
  rewrite pop_blank_snoc.
  destruct (is_blank x) eqn:E; [assumption|].
  intros _. now rewrite last_last.
Qed.

Lemma pop_blank_idem (l : list str) : pop_blank (pop_blank l) = pop_blank l.
Proof.
  destruct (pop_blank l) as [|x r] eqn:E; [reflexivity|].
  rewrite <- E. apply pop_blank_fixed, pop_blank_last. congruence.
Qed.

(** What is popped is a run of blank lines at the end. *)
Lemma pop_blank_prefix (l : list str) :
  exists blanks,
    l = pop_blank l ++ blanks /\ Forall (fun b => is_blank b = true) blanks.
Proof.
  induction l as [|x l IH] using rev_ind.
  - exists []. now split.
  - rewrite pop_blank_snoc. destruct (is_blank x) eqn:E.
    + destruct IH as (blanks & E1 & Hb). exists (blanks ++ [x]). split.
      * rewrite app_assoc. now rewrite <- E1.
      * apply Forall_app. split; [assumption|now constructor].
    + exists []. split; [now rewrite app_nil_r|constructor].
Qed.

Lemma pop_blank_Forall (P : str -> Prop) (l : list str) :
  Forall P l -> Forall P (pop_blank l).
Proof.
  intros H. destruct (pop_blank_prefix l) as (blanks & E & _).
  rewrite E in H. now apply Forall_app in H.
Qed.

(** ** The trailer toggle: finding the trailer *)

Lemma find_signoff_last_trailer (pre : list str) (l : str) :
  startswith l SIGNOFF_PREFIX = true ->
  find_signoff (pre ++ [l]) = Some (length pre).
Proof.
  intros Hl. unfold find_signoff. rewrite length_app, Nat.add_1_r.
  destruct (length pre) as [|n] eqn:En.
  - destruct pre; [|discriminate]. simpl. now rewrite Hl.
  - cbn [find_signoff_from]. rewrite <- En.
    rewrite nth_error_app2, Nat.sub_diag by lia. simpl. now rewrite Hl.
Qed.

Lemma find_signoff_last_other (pre : list str) (l : str) :
  startswith l SIGNOFF_PREFIX = false ->
  is_blank l = false -> no_hash l ->
  find_signoff (pre ++ [l]) = None.
Proof.
  intros Hl Hb Hh. unfold find_signoff. rewrite length_app, Nat.add_1_r.
  unfold is_blank in Hb. apply negb_false_iff in Hb.
  destruct (length pre) as [|n] eqn:En.
  - destruct pre; [|discriminate]. simpl. now rewrite Hl, Hb, Hh.
  - cbn [find_signoff_from]. rewrite <- En.
    rewrite nth_error_app2, Nat.sub_diag by lia. simpl.
    now rewrite Hl, Hb, Hh.
Qed.

Lemma del_at_last {A : Type} (pre : list A) (x : A) :
  del_at (length pre) (pre ++ [x]) = pre.
Proof.
  unfold del_at. rewrite firstn_app, firstn_all, Nat.sub_diag.
  rewrite skipn_all2 by (rewrite length_app; simpl; lia).
  simpl. now rewrite !app_nil_r.
Qed.

(** ** The trailer toggle: the content and the comment block *)

Lemma content_block_no_hash (lines : list str) :
  Forall no_hash (content_block lines).
Proof.
  unfold content_block, no_hash.
  induction lines as [|l lines IH]; simpl; [constructor|].
  destruct (startswith l [hash]) eqn:E; simpl; [constructor|].
  now constructor.
Qed.

Lemma comment_block_head (lines : list str) :
  comment_block lines <> [] ->
  startswith (hd [] (comment_block lines)) [hash] = true.
Proof.
  unfold comment_block.
  induction lines as [|l lines IH]; simpl; [congruence|].
  destruct (startswith l [hash]) eqn:E; simpl; auto.
Qed.

Lemma comment_start_index_app (a b : list str) :
  Forall no_hash a ->
  comment_start_index (a ++ b) = length a + comment_start_index b.
Proof.
  induction 1 as [|l a Hl Ha IH]; simpl; [reflexivity|].
  unfold no_hash in Hl. now rewrite Hl, IH.
Qed.

Lemma comment_start_index_hash (b : list str) :
  startswith (hd [] b) [hash] = true -> comment_start_index b = 0.
Proof. destruct b as [|l b]; simpl; [reflexivity|]. now intros ->. Qed.

Lemma blocks_of_app (a b : list str) :
  Forall no_hash a -> b = [] \/ startswith (hd [] b) [hash] = true ->
  content_block (a ++ b) = a /\ comment_block (a ++ b) = b.
Proof.
  intros Ha Hb. unfold content_block, comment_block.
  rewrite comment_start_index_app by assumption.
  replace (comment_start_index b) with 0.
  - rewrite Nat.add_0_r, firstn_app, skipn_app, firstn_all, skipn_all.
    rewrite Nat.sub_diag. simpl. now rewrite app_nil_r.
  - destruct Hb as [->|Hb]; [reflexivity|].
    symmetry. now apply comment_start_index_hash.
Qed.

(** ** The trailer toggle: the lines of the new buffer *)

Lemma lines_of_join (content : list str) :
  Forall (free_of newline) content ->
  document_lines (join newline content)
  = match content with [] => [[]] | _ :: _ => content end.
Proof.
  intros H. destruct content as [|c content]; [reflexivity|].
  apply document_lines_join; [discriminate|assumption].
Qed.

Lemma reassemble_lines (content comments : list str) :
  Forall (free_of newline) content -> Forall (free_of newline) comments ->
  document_lines (reassemble content comments)
  = match content with [] => [[]] | _ :: _ => content end
    ++ match comments with [] => [] | _ :: _ => [] :: comments end.
Proof.
  intros Hc Hm. unfold reassemble.
  destruct comments as [|m comments].
  - rewrite app_nil_r. now apply lines_of_join.
  - unfold document_lines. rewrite split_app_sep.
    fold (document_lines (join newline content)).
    rewrite lines_of_join by assumption. f_equal.
    change (newline :: join newline (m :: comments))
      with ([] ++ newline :: join newline (m :: comments)).
    rewrite split_app_sep. simpl app. f_equal.
    apply (split_join newline (m :: comments)); [discriminate|assumption].
Qed.

Lemma del_at_Forall {A : Type} (P : A -> Prop) (i : nat) (l : list A) :
  Forall P l -> Forall P (del_at i l).
Proof.
  intros H. unfold del_at. apply Forall_app. split.
  - now apply Forall_firstn_skipn.
  - now apply Forall_firstn_skipn.
Qed.

Lemma toggle_content_Forall (P : str -> Prop) (signoff : str)
  (content : list str) :
  Forall P content -> P [] -> P signoff ->
  Forall P (toggle_content signoff content).
Proof.
  intros Hc Hnil Hs. unfold toggle_content.
  pose proof (pop_blank_Forall P content Hc) as Hp.
  destruct (find_signoff (pop_blank content)).
  - now apply pop_blank_Forall, del_at_Forall.
  - apply Forall_app. split; [|now constructor].
    destruct (truthy (strip (last (pop_blank content) [])));
      [|assumption].
    apply Forall_app. split; [assumption|now constructor].
Qed.

Lemma toggle_content_last (signoff : str) (content : list str) :
  is_blank signoff = false ->
  toggle_content signoff content <> [] ->
  is_blank (last (toggle_content signoff content) []) = false.
Proof.
  intros Hs. unfold toggle_content.
  destruct (find_signoff (pop_blank content)).
  - apply pop_blank_last.
  - intros _. now rewrite last_last.
Qed.

(** The toggle starts by popping the trailing blank lines, so it does
    not see them. *)
Lemma toggle_content_pop (signoff : str) (content : list str) :
  toggle_content signoff (pop_blank content)
  = toggle_content signoff content.
Proof. unfold toggle_content. now rewrite pop_blank_idem. Qed.

Lemma document_lines_free (t : str) :
  Forall (free_of newline) (document_lines t).
Proof. apply split_pieces_free. Qed.

Lemma blocks_free (t : str) :
  Forall (free_of newline) (content_block (document_lines t))
  /\ Forall (free_of newline) (comment_block (document_lines t)).
Proof. apply Forall_firstn_skipn, document_lines_free. Qed.

Lemma free_of_nil (c : ascii) : free_of c [].
Proof. intros []. Qed.

End Toggle.

(** C4, as the code has it.  After the toggle, with a trailer string
    that is one line and not blank: when there is a comment block and the new content is not
    empty, the lines of the buffer are the content lines, one empty line
    and the comment block, the last content line is not blank and the
    comment block begins with a [#] line, whatever separated them before;
    when the toggle removed the only content line, the buffer is two empty
    lines and the comment block.  Without a comment block the buffer is
    the content lines joined. *)
Theorem toggle_separator (t signoff : str)
  (Hline : free_of newline signoff) (Hsolid : is_blank signoff = false) :
  let content := toggle_content signoff (content_block (document_lines t)) in
  let comments := comment_block (document_lines t) in
  let new_lines := document_lines (toggle_text signoff t) in
  (comments <> [] -> content <> [] ->
   new_lines = content ++ [[]] ++ comments
   /\ is_blank (last content []) = false
   /\ startswith (hd [] comments) [hash] = true)
  /\ (comments <> [] -> content = [] -> new_lines = [] :: [] :: comments)
  /\ (comments = [] -> toggle_text signoff t = join newline content).
Proof.
  intros content comments new_lines.
  destruct (Toggle.blocks_free t) as [Hc Hm].
  assert (Hc' : Forall (free_of newline) content).
  { apply Toggle.toggle_content_Forall;
      [assumption|apply Toggle.free_of_nil|assumption]. }
  assert (Hl : new_lines
               = match content with [] => [[]] | _ :: _ => content end
                 ++ match comments with [] => [] | _ :: _ => [] :: comments end).
  { now apply Toggle.reassemble_lines. }
  split; [|split].
  - intros Hne Hcne. split; [|split].
    + rewrite Hl. destruct content; [congruence|].
      destruct comments; [congruence|reflexivity].
    + now apply Toggle.toggle_content_last.
    + now apply Toggle.comment_block_head.
  - intros Hne Hnil. rewrite Hl, Hnil.
    destruct comments; [congruence|reflexivity].
  - intros Hnil. unfold toggle_text. fold content. fold comments.
    now rewrite Hnil.
Qed.

Lemma toggle_separator_witness :
  let t := lit "Subject" ++ newline :: newline :: lit "Body text"
           ++ newline :: newline :: newline :: lit "# comment"
           ++ [newline] in
  let signoff := lit "Signed-off-by: A <a@b.com>" in
  free_of newline signoff /\ is_blank signoff = false
  /\ document_lines (toggle_text signoff t)
     = [lit "Subject"; []; lit "Body text"; []; signoff]
       ++ [[]] ++ [lit "# comment"; []].
Proof.
  intros t signoff.
  assert (H1 : free_of newline signoff).
  { intros H. vm_compute in H.
    repeat (destruct H as [H|H]; [discriminate|]). destruct H. }
  assert (H2 : is_blank signoff = false) by reflexivity.
  split; [exact H1|]. split; [exact H2|].
  destruct (toggle_separator t signoff H1 H2) as [H _].
  apply H; discriminate.
Defined.

(** The claim C4 as it is worded fails when the toggle removes the only
    content line: no content line is left, and the buffer begins with two
    empty lines before the comment block. *)
Lemma toggle_separator_no_content :
  let t := lit "Signed-off-by: Z <z@z>" ++ newline :: lit "# c" in
  let signoff := lit "Signed-off-by: A <a@b.com>" in
  comment_block (document_lines t) = [lit "# c"]
  /\ toggle_text signoff t = newline :: newline :: lit "# c"
  /\ document_lines (toggle_text signoff t) = [[]; []; lit "# c"]
  /\ ~ (exists before last_content,
          is_blank last_content = false
          /\ document_lines (toggle_text signoff t)
             = before ++ [last_content; []] ++ [lit "# c"]).
Proof.
  cbv zeta. split; [reflexivity|]. split; [reflexivity|].
  assert (E : document_lines
                (toggle_text (lit "Signed-off-by: A <a@b.com>")
                   (lit "Signed-off-by: Z <z@z>" ++ newline :: lit "# c"))
              = [[]; []; lit "# c"]) by reflexivity.
  split; [exact E|]. rewrite E.
  intros (before & last_content & Hblank & H).
  assert (L := f_equal (@length _) H).
  rewrite length_app in L. simpl in L.
  destruct before; [|simpl in L; lia].
  simpl in H. injection H as <-. discriminate.
Qed.

(** ** The trailer toggle: the identity and the guard *)

Lemma get_signed_off_by_shape (git : GitConfig) (signoff : str) :
  get_signed_off_by git = Some signoff ->
  exists name email,
    signoff = lit "Signed-off-by: " ++ name ++ lit " <" ++ email ++ lit ">".
Proof.
  unfold get_signed_off_by.
  destruct (user_name git) as [name|]; [|discriminate].
  destruct (user_email git) as [email|]; [|discriminate].
  destruct (truthy name && truthy email); [|discriminate].
  intros [= <-]. now exists name, email.
Qed.

Lemma get_signed_off_by_prefix (git : GitConfig) (signoff : str) :
  get_signed_off_by git = Some signoff ->
  startswith signoff SIGNOFF_PREFIX = true.
Proof.
  intros H. apply get_signed_off_by_shape in H as (name & email & ->).
  reflexivity.
Qed.

Lemma get_signed_off_by_truthy (git : GitConfig) (signoff : str) :
  get_signed_off_by git = Some signoff -> truthy signoff = true.
Proof.
  intros H. apply get_signed_off_by_shape in H as (name & email & ->).
  reflexivity.
Qed.

Lemma action_toggle_signoff_some (git : GitConfig) (app : CommitEditorApp)
  (signoff : str) :
  get_signed_off_by git = Some signoff ->
  action_toggle_signoff git app
  = {| editor :=
         load_text (toggle_text signoff (text (editor app)))
           (restore_cursor (toggle_text signoff (text (editor app)))
              (cursor_location (editor app)));
       message_bar := message_bar app |}.
Proof.
  intros H. unfold action_toggle_signoff.
  rewrite H, (get_signed_off_by_truthy git signoff H). reflexivity.
Qed.

(** The two branches of the action, by the guard. *)
Lemma action_toggle_signoff_guard (git : GitConfig)
  (app : CommitEditorApp) :
  action_toggle_signoff git app
  = if signoff_missing (get_signed_off_by git)
    then show_message NOT_CONFIGURED true app
    else
      let signoff :=
        match get_signed_off_by git with Some s => s | None => [] end in
      {| editor :=
           load_text (toggle_text signoff (text (editor app)))
             (restore_cursor (toggle_text signoff (text (editor app)))
                (cursor_location (editor app)));
         message_bar := message_bar app |}.
Proof.
  unfold action_toggle_signoff, signoff_missing.
  destruct (get_signed_off_by git) as [s|]; [|reflexivity].
  now destruct (truthy s).
Qed.

(** C6.  The guard [if not signoff] fires exactly when
    [get_signed_off_by] returned nothing.  When it fires, the action only
    shows the message "Git user not configured" as an error, and the
    editor, text and cursor, is what it was; when it does not, there is a
    trailer string, the message bar is left alone and the text is
    replaced as a whole by the toggled text. *)
Theorem toggle_fails_iff_no_identity (git : GitConfig)
  (app : CommitEditorApp) :
  let signoff := get_signed_off_by git in
  let app' := action_toggle_signoff git app in
  (signoff_missing signoff = true <-> signoff = None)
  /\ (signoff_missing signoff = true ->
      app' = show_message NOT_CONFIGURED true app
      /\ editor app' = editor app
      /\ message_bar app' = {| message := NOT_CONFIGURED; error := true |})
  /\ (signoff_missing signoff = false ->
      exists s,
        signoff = Some s
        /\ text (editor app') = toggle_text s (text (editor app))
        /\ message_bar app' = message_bar app).
Proof.
  cbv zeta. rewrite action_toggle_signoff_guard.
  destruct (get_signed_off_by git) as [s|] eqn:E.
  - apply get_signed_off_by_truthy in E as Ht.
    unfold signoff_missing. rewrite Ht. cbn [negb].
    split; [split; discriminate|]. split; [discriminate|].
    intros _. exists s. now repeat split.
  - cbn [signoff_missing].
    split; [tauto|]. split; [now repeat split|discriminate].
Qed.

(** ** Lines that start with the trailer prefix *)

Lemma lstrip_keeps (s : str) (c : ascii) :
  In c s -> isspace c = false -> In c (lstrip s).
Proof.
  induction s as [|d s IH]; simpl; [auto|].
  intros [->|H] Hc.
  - rewrite Hc. now left.
  - destruct (isspace d); [auto|]. right. exact H.
Qed.

Lemma strip_keeps (s : str) (c : ascii) :
  In c s -> isspace c = false -> In c (strip s).
Proof.
  intros H Hc. unfold strip, rstrip.
  apply in_rev. rewrite rev_involutive.
  apply lstrip_keeps; [|assumption].
  apply -> in_rev. now apply lstrip_keeps.
Qed.

Lemma startswith_head (l : str) (c : ascii) (p : str) :
  startswith l (c :: p) = true -> exists r, l = c :: r.
Proof.
  destruct l as [|d l]; simpl; [discriminate|].
  destruct (Ascii.eqb_spec d c) as [->|]; [|discriminate].
  intros _. now exists l.
Qed.

Lemma prefix_not_blank (l : str) :
  startswith l SIGNOFF_PREFIX = true -> is_blank l = false.
Proof.
  intros H. apply startswith_head in H as (r & ->).
  unfold is_blank. apply negb_false_iff, truthy_true.
  intros E.
  assert (Hin : In "S"%char (strip ("S"%char :: r))).
  { apply strip_keeps; [now left|reflexivity]. }
  rewrite E in Hin. destruct Hin.
Qed.

Lemma prefix_no_hash (l : str) :
  startswith l SIGNOFF_PREFIX = true -> no_hash l.
Proof. intros H. apply startswith_head in H as (r & ->). reflexivity. Qed.

(** When the last content line that is not blank starts with the prefix,
    the toggle drops it and the blank lines around it. *)
Lemma toggle_content_remove (signoff : str) (pre blanks : list str)
  (l : str) :
  startswith l SIGNOFF_PREFIX = true ->
  Forall (fun b => is_blank b = true) blanks ->
  toggle_content signoff (pre ++ l :: blanks) = pop_blank pre.
Proof.
  intros Hl Hb. unfold toggle_content.
  change (pre ++ l :: blanks) with (pre ++ [l] ++ blanks).
  rewrite app_assoc, Toggle.pop_blank_app_blanks by assumption.
  rewrite Toggle.pop_blank_fixed
    by (rewrite last_last; now apply prefix_not_blank).
  rewrite Toggle.find_signoff_last_trailer by assumption.
  now rewrite Toggle.del_at_last.
Qed.

(** C10.  Removal looks at the prefix only.  When the last content line
    that is not blank starts with [Signed-off-by:], the toggle removes
    it, and the blank lines before it, whatever trailer string the
    identity provider returned: the new text is built from the lines
    before that line and the comment block. *)
Theorem toggle_removes_by_prefix (git : GitConfig) (app : CommitEditorApp)
  (signoff l : str) (pre blanks : list str)
  (Hid : get_signed_off_by git = Some signoff)
  (Hcontent : content_block (document_lines (text (editor app)))
              = pre ++ l :: blanks)
  (Hblanks : Forall (fun b => is_blank b = true) blanks)
  (Hprefix : startswith l SIGNOFF_PREFIX = true) :
  text (editor (action_toggle_signoff git app))
  = reassemble (pop_blank pre)
      (comment_block (document_lines (text (editor app)))).
Proof.
  rewrite (action_toggle_signoff_some git app signoff Hid).
  cbn [editor load_text text]. unfold toggle_text.
  now rewrite Hcontent, toggle_content_remove.
Qed.

Lemma toggle_removes_by_prefix_witness :
  text (editor
    (action_toggle_signoff
       {| user_name := Some (lit "B"); user_email := Some (lit "b@x.org") |}
       {| editor :=
            {| text := lit "Fix" ++ newline :: newline
                       :: lit "Signed-off-by: A <a@x.org>"
                       ++ newline :: newline :: lit "# note";
               cursor_location := (0, 0) |};
          message_bar := {| message := []; error := false |} |}))
  = lit "Fix" ++ newline :: newline :: lit "# note".
Proof.
  refine (toggle_removes_by_prefix
            {| user_name := Some (lit "B"); user_email := Some (lit "b@x.org") |}
            _ (lit "Signed-off-by: B <b@x.org>")
            (lit "Signed-off-by: A <a@x.org>") [lit "Fix"; []] [[]]
            _ _ _ _).
  - reflexivity.
  - reflexivity.
  - repeat constructor.
  - reflexivity.
Defined.

(** ** The cursor after a transform *)

Lemma restore_cursor_valid (new_text : str) (loc : Location) :
  valid_cursor (load_text new_text (restore_cursor new_text loc)).
Proof.
  unfold valid_cursor, restore_cursor, load_text.
  cbn [text cursor_location fst snd].
  pose proof (split_not_nil newline new_text) as Hne.
  fold (document_lines new_text) in Hne.
  assert (Hlen : 0 < length (document_lines new_text)).
  { destruct (document_lines new_text); [congruence|simpl; lia]. }
  assert (Hrow : Nat.min (fst loc) (length (document_lines new_text) - 1)
                 < length (document_lines new_text)) by lia.
  split; [exact Hrow|].
  apply Nat.ltb_lt in Hrow. rewrite Hrow. lia.
Qed.

Lemma auto_wrap_valid (ed : CommitTextArea) :
  valid_cursor ed -> valid_cursor (wrap_current_body_line ed).
Proof.
  intros Hvalid.
  destruct (auto_wrap_acts ed) eqn:Hacts;
    [|now rewrite auto_wrap_noop].
  pose proof (auto_wrap_lines ed Hacts) as Hlines.
  pose proof (auto_wrap_nth ed 0 Hacts) as Hn0.
  pose proof (auto_wrap_nth ed 1 Hacts) as Hn1.
  pose proof (auto_wrap_result ed Hacts) as Hres.
  apply auto_wrap_conditions in Hacts as (_ & Hrow & _ & Hwr).
  cbv zeta in *.
  set (row := fst (cursor_location ed)) in *.
  set (col := snd (cursor_location ed)) in *.
  set (lines := document_lines (text ed)) in *.
  set (wrapped := wrap_line (nth row lines []) BODY_MAX_LENGTH) in *.
  assert (Hlen : length (document_lines (text (wrap_current_body_line ed)))
                 = row + length wrapped + (length lines - S row)).
  { rewrite Hlines, !length_app, length_firstn, length_skipn. lia. }
  specialize (Hn0 ltac:(lia)). specialize (Hn1 Hwr).
  rewrite Nat.add_0_r in Hn0.
  unfold valid_cursor. rewrite Hlen.
  replace (cursor_location (wrap_current_body_line ed))
    with (if length (nth 0 wrapped []) <? col
          then (row + 1, Nat.min (col - length (nth 0 wrapped []) - 1)
                           (length (nth 1 wrapped [])))
          else (row, col))
    by (now rewrite Hres).
  destruct (Nat.ltb_spec (length (nth 0 wrapped [])) col); cbn [fst snd].
  - rewrite Hn1. lia.
  - rewrite Hn0. lia.
Qed.

(** C9.  Both transforms leave a cursor that is valid in the buffer they
    leave: from an editor whose cursor is within bounds, the row after
    [wrap_current_body_line] and after [action_toggle_signoff] is the
    index of a line of the new document and the column is at most the
    length of that line. *)
Theorem cursor_stays_valid (git : GitConfig) (app : CommitEditorApp)
  (Hvalid : valid_cursor (editor app)) :
  valid_cursor (wrap_current_body_line (editor app))
  /\ valid_cursor (editor (action_toggle_signoff git app)).
Proof.
  split; [now apply auto_wrap_valid|].
  unfold action_toggle_signoff.
  destruct (get_signed_off_by git) as [signoff|]; [|exact Hvalid].
  destruct (truthy signoff); [|exact Hvalid].
  apply restore_cursor_valid.
Qed.

Lemma cursor_stays_valid_witness :
  let body := repeat "a"%char 40 ++ space :: repeat "b"%char 40 in
  let app :=
    {| editor := {| text := lit "Title" ++ newline :: newline :: body;
                    cursor_location := (2, 81) |};
       message_bar := {| message := []; error := false |} |} in
  let git :=
    {| user_name := Some (lit "A"); user_email := Some (lit "a@b.com") |} in
  valid_cursor (editor app)
  /\ valid_cursor (wrap_current_body_line (editor app))
  /\ valid_cursor (editor (action_toggle_signoff git app)).
Proof.
  intros body app git.
  assert (H : valid_cursor (editor app)).
  { unfold valid_cursor. vm_compute. split; lia. }
  split; [exact H|]. exact (cursor_stays_valid git app H).
Defined.

(** ** Toggling twice *)

(** Without a trailer at the end, the toggle appends the trailer string,
    after an empty line when there is content. *)
Lemma toggle_content_add (signoff : str) (content : list str) :
  pop_blank content = content -> Forall no_hash content ->
  startswith (last content []) SIGNOFF_PREFIX = false ->
  toggle_content signoff content
  = match content with [] => [] | _ :: _ => content ++ [[]] end
    ++ [signoff].
Proof.
  intros Hpop Hhash Hlast. unfold toggle_content. rewrite Hpop.
  destruct content as [|x content] using rev_ind; [reflexivity|].
  clear IHcontent. rewrite last_last in *.
  assert (Hb : is_blank x = false).
  { rewrite <- (last_last content x []), <- Hpop.
    apply Toggle.pop_blank_last. rewrite Hpop. now destruct content. }
  apply Forall_app in Hhash as [_ Hx]. inversion Hx; subst.
  rewrite Toggle.find_signoff_last_other by assumption.
  unfold is_blank in Hb. apply negb_false_iff in Hb. rewrite Hb.
  now destruct content.
Qed.

Lemma is_blank_nil : is_blank [] = true.
Proof. reflexivity. Qed.

Lemma toggle_content_twice (signoff : str) (content : list str) :
  startswith signoff SIGNOFF_PREFIX = true ->
  pop_blank content = content -> Forall no_hash content ->
  trailer_stable signoff content ->
  toggle_content signoff (toggle_content signoff content) = content.
Proof.
  intros Hs Hpop Hhash [Hplain|[->|(pre & -> & Hb & Hp)]].
  - rewrite (toggle_content_add signoff content) by assumption.
    destruct content as [|x content].
    + change ([] ++ [signoff]) with ([] ++ signoff :: []).
      rewrite toggle_content_remove by (assumption || constructor).
      reflexivity.
    + rewrite <- app_assoc.
      change ([[]] ++ [signoff]) with ([[]; signoff]).
      replace ((x :: content) ++ [[]; signoff])
        with (((x :: content) ++ [[]]) ++ signoff :: [])
        by (now rewrite <- app_assoc).
      rewrite toggle_content_remove by (assumption || constructor).
      now rewrite Toggle.pop_blank_snoc, is_blank_nil.
  - change [signoff] with ([] ++ signoff :: []).
    rewrite toggle_content_remove by (assumption || constructor).
    reflexivity.
  - replace (pre ++ [[]; signoff]) with ((pre ++ [[]]) ++ signoff :: [])
      by (now rewrite <- app_assoc).
    rewrite toggle_content_remove by (assumption || constructor).
    rewrite Toggle.pop_blank_snoc, is_blank_nil.
    rewrite (Toggle.pop_blank_fixed pre Hb).
    rewrite (toggle_content_add signoff pre).
    + destruct pre; [discriminate|]. now rewrite <- !app_assoc.
    + now apply Toggle.pop_blank_fixed.
    + apply Forall_app in Hhash. tauto.
    + assumption.
Qed.

(** The content and the comment block of the toggled text. *)
Lemma toggle_text_blocks (signoff t : str) :
  free_of newline signoff -> startswith signoff SIGNOFF_PREFIX = true ->
  normal_content (toggle_text signoff t)
  = toggle_content signoff (normal_content t)
  /\ comments_of (toggle_text signoff t) = comments_of t.
Proof.
  intros Hline Hprefix. unfold normal_content, comments_of.
  rewrite Toggle.toggle_content_pop.
  destruct (Toggle.blocks_free t) as [Hc Hm].
  set (content := toggle_content signoff (content_block (document_lines t))).
  set (comments := comment_block (document_lines t)) in *.
  assert (Hfree : Forall (free_of newline) content).
  { apply Toggle.toggle_content_Forall;
      [assumption|apply Toggle.free_of_nil|assumption]. }
  assert (Hhash : Forall no_hash content).
  { apply Toggle.toggle_content_Forall;
      [apply Toggle.content_block_no_hash|reflexivity
      |now apply prefix_no_hash]. }
  assert (Hlast : content <> [] -> is_blank (last content []) = false).
  { apply Toggle.toggle_content_last. now apply prefix_not_blank. }
  assert (Hhead : comments = []
                  \/ startswith (hd [] comments) [hash] = true).
  { subst comments.
    destruct (comment_block (document_lines t)) eqn:E; [now left|right].
    rewrite <- E. apply Toggle.comment_block_head. rewrite E.
    discriminate. }
  unfold toggle_text. fold content. fold comments.
  rewrite Toggle.reassemble_lines by assumption.
  set (shown := match content with [] => [[]] | _ :: _ => content end).
  set (sep := match comments with [] => @nil str | _ :: _ => [[]] end).
  replace (shown ++ match comments with [] => [] | _ :: _ => [] :: comments end)
    with ((shown ++ sep) ++ comments)
    by (subst sep; destruct comments; now rewrite <- ?app_assoc, ?app_nil_r).
  assert (Hshown : Forall no_hash (shown ++ sep)).
  { apply Forall_app. split.
    - subst shown. destruct content; [now repeat constructor|assumption].
    - subst sep. destruct comments; now repeat constructor. }
  destruct (Toggle.blocks_of_app (shown ++ sep) comments Hshown Hhead)
    as [-> ->].
  split; [|reflexivity].
  rewrite Toggle.pop_blank_app_blanks
    by (subst sep; destruct comments; now repeat constructor).
  subst shown. clearbody content.
  destruct content as [|x rest]; [reflexivity|].
  apply Toggle.pop_blank_fixed, Hlast. discriminate.
Qed.

Lemma normal_content_normal (t : str) :
  pop_blank (normal_content t) = normal_content t
  /\ Forall no_hash (normal_content t).
Proof.
  unfold normal_content. split.
  - apply Toggle.pop_blank_idem.
  - apply Toggle.pop_blank_Forall, Toggle.content_block_no_hash.
Qed.

(** C1, as the code has it.  With a trailer string of one line, as the
    identity provider returns it, two toggles give back the content lines
    (the lines before the comment block, without the blank lines at their
    end) and the comment block, on every buffer whose content is stable:
    its last line that is not blank is no [Signed-off-by:] line, or the
    content is the trailer string alone, or it ends with a line that is
    neither blank nor a trailer, an empty line and the trailer string. *)
Theorem toggle_twice (git : GitConfig) (app : CommitEditorApp)
  (signoff : str)
  (Hid : get_signed_off_by git = Some signoff)
  (Hline : free_of newline signoff)
  (Hstable : trailer_stable signoff (normal_content (text (editor app)))) :
  let twice := action_toggle_signoff git (action_toggle_signoff git app) in
  normal_content (text (editor twice)) = normal_content (text (editor app))
  /\ comments_of (text (editor twice)) = comments_of (text (editor app)).
Proof.
  cbv zeta.
  pose proof (get_signed_off_by_prefix git signoff Hid) as Hprefix.
  rewrite (action_toggle_signoff_some git _ signoff Hid).
  rewrite (action_toggle_signoff_some git app signoff Hid).
  cbn [editor load_text text].
  set (t := text (editor app)) in *.
  destruct (toggle_text_blocks signoff t Hline Hprefix) as [E1 E2].
  destruct (toggle_text_blocks signoff (toggle_text signoff t) Hline Hprefix)
    as [E3 E4].
  destruct (normal_content_normal t) as [Hpop Hhash].
  rewrite E3, E1, E4, E2. split; [|reflexivity].
  now apply toggle_content_twice.
Qed.

Lemma toggle_twice_witness :
  let git :=
    {| user_name := Some (lit "A"); user_email := Some (lit "a@b.com") |} in
  let t := lit "Subject" ++ newline :: newline :: lit "Body text"
           ++ newline :: newline :: lit "# comment" ++ [newline] in
  let app :=
    {| editor := {| text := t; cursor_location := (0, 0) |};
       message_bar := {| message := []; error := false |} |} in
  let twice := action_toggle_signoff git (action_toggle_signoff git app) in
  normal_content (text (editor twice)) = [lit "Subject"; []; lit "Body text"]
  /\ comments_of (text (editor twice)) = [lit "# comment"; []].
Proof.
  intros git t app twice.
  assert (Hid : get_signed_off_by git
                = Some (lit "Signed-off-by: A <a@b.com>")) by reflexivity.
  assert (Hline : free_of newline (lit "Signed-off-by: A <a@b.com>")).
  { intros H. vm_compute in H.
    repeat (destruct H as [H|H]; [discriminate|]). destruct H. }
  assert (Hstable : trailer_stable (lit "Signed-off-by: A <a@b.com>")
                      (normal_content (text (editor app)))).
  { left. reflexivity. }
  exact (toggle_twice git app _ Hid Hline Hstable).
Defined.

(** The claim C1 as it is worded fails: a trailer of another identity is
    removed by the first toggle, and the second toggle adds the trailer of
    the configured identity in its place. *)
Lemma toggle_twice_other_identity :
  let git :=
    {| user_name := Some (lit "B"); user_email := Some (lit "b@x.org") |} in
  let app :=
    {| editor :=
         {| text := lit "Fix" ++ newline :: newline
                    :: lit "Signed-off-by: A <a@x.org>";
            cursor_location := (0, 0) |};
       message_bar := {| message := []; error := false |} |} in
  let twice := action_toggle_signoff git (action_toggle_signoff git app) in
  text (editor (action_toggle_signoff git app)) = lit "Fix"
  /\ text (editor twice)
     = lit "Fix" ++ newline :: newline :: lit "Signed-off-by: B <b@x.org>"
  /\ normal_content (text (editor twice))
     <> normal_content (text (editor app)).
Proof.
  cbv zeta. split; [reflexivity|]. split; [reflexivity|].
  vm_compute. discriminate.
Qed.

(** Nor does it hold with the trailer of the configured identity itself,
    when no empty line stands before it: the second toggle puts one. *)
Example toggle_twice_adds_empty_line :
  let git :=
    {| user_name := Some (lit "A"); user_email := Some (lit "a@x.org") |} in
  let app :=
    {| editor :=
         {| text := lit "Fix" ++ newline :: lit "Signed-off-by: A <a@x.org>";
            cursor_location := (0, 0) |};
       message_bar := {| message := []; error := false |} |} in
  document_lines
    (text (editor (action_toggle_signoff git
                     (action_toggle_signoff git app))))
  = [lit "Fix"; []; lit "Signed-off-by: A <a@x.org>"].
Proof. reflexivity. Qed.

(** * Further properties of the code *)

(** ** White space at the ends *)

Lemma lstrip_cut (s : str) :
  exists ws, s = ws ++ lstrip s /\ Forall (fun c => isspace c = true) ws.
Proof.
  induction s as [|c s (ws & E & H)]; [now exists []|].
  simpl. destruct (isspace c) eqn:Ec.
  - exists (c :: ws). split; [simpl; now rewrite <- E|now constructor].
  - now exists [].
Qed.

Lemma lstrip_headed (s : str) : headed (lstrip s).
Proof.
  induction s as [|c s IH]; simpl; [exact I|].
  destruct (isspace c) eqn:E; [exact IH|exact E].
Qed.

Lemma lstrip_of_headed (s : str) : headed s -> lstrip s = s.
Proof. destruct s as [|c s]; simpl; [reflexivity|]. now intros ->. Qed.

Lemma strip_is_trimmed (s : str) : trimmed (strip s).
Proof.
  unfold strip, rstrip.
  destruct (lstrip_cut (rev (lstrip s))) as (ws & E & Hws).
  pose proof (lstrip_headed (rev (lstrip s))) as Hy.
  pose proof (lstrip_headed s) as Hx.
  set (y := lstrip (rev (lstrip s))) in *.
  apply (f_equal (@rev ascii)) in E.
  rewrite rev_involutive, rev_app_distr in E.
  destruct y as [|d r]; [exact I|].
  simpl rev in *. simpl in Hy.
  destruct (rev r ++ [d]) as [|c m] eqn:Em; [now destruct (rev r)|].
  change (isspace c = false /\ isspace (last (c :: m) c) = false).
  split.
  - rewrite E in Hx. exact Hx.
  - rewrite <- Em, last_last. exact Hy.
Qed.

Lemma strip_of_trimmed (s : str) : trimmed s -> strip s = s.
Proof.
  destruct s as [|c s]; [reflexivity|]. intros [Hc Hl].
  destruct (@exists_last _ (c :: s)) as (m & d & E); [discriminate|].
  rewrite E in Hl |- *. rewrite last_last in Hl.
  destruct m as [|c' m]; simpl in E; injection E as Ec Es; subst.
  - unfold strip, rstrip. simpl. rewrite Hl. simpl. now rewrite Hl.
  - now apply strip_fixed.
Qed.

Lemma strip_idempotent (s : str) : strip (strip s) = strip s.
Proof. apply strip_of_trimmed, strip_is_trimmed. Qed.

(** ** The identity lookups *)

Lemma lookup_some (stdout name : str) :
  (let s := strip stdout in if truthy s then Some s else None) = Some name ->
  name = strip stdout /\ is_blank stdout = false.
Proof.
  cbv zeta. unfold is_blank.
  destruct (truthy (strip stdout)); [|discriminate].
  intros [= <-]. now split.
Qed.

(** X1.  A name or an e-mail address that a lookup returns is the
    output of git without the white space around it: it is not empty and
    has no white space at either end, so stripping it again changes
    nothing.  A lookup returns nothing exactly when git failed, was not
    found, or printed only white space. *)
Theorem lookups_trimmed (run : RunResult) :
  (forall name, get_user_name run = Some name ->
     name <> [] /\ trimmed name /\ strip name = name)
  /\ (forall email, get_user_email run = Some email ->
     email <> [] /\ trimmed email /\ strip email = email)
  /\ (get_user_name run = None <->
      forall stdout, run = Completed stdout -> is_blank stdout = true)
  /\ (get_user_email run = None <->
      forall stdout, run = Completed stdout -> is_blank stdout = true).
Proof.
  assert (Hsome : forall stdout v,
            (let s := strip stdout in if truthy s then Some s else None)
            = Some v ->
            v <> [] /\ trimmed v /\ strip v = v).
  { intros stdout v Hv. pose proof Hv as Hv'.
    apply lookup_some in Hv' as [-> Hb].
    unfold is_blank in Hb. apply negb_false_iff, truthy_true in Hb.
    split; [exact Hb|]. split; [apply strip_is_trimmed|].
    apply strip_idempotent. }
  split; [|split; [|split]].
  - destruct run as [stdout| |]; simpl; try discriminate. apply Hsome.
  - destruct run as [stdout| |]; simpl; try discriminate. apply Hsome.
  - destruct run as [stdout| |]; simpl.
    + unfold is_blank. destruct (truthy (strip stdout)) eqn:E; split.
      * discriminate.
      * intros H. specialize (H stdout eq_refl). now rewrite E in H.
      * intros _ out [= <-]. now rewrite E.
      * reflexivity.
    + split; [discriminate|reflexivity].
    + split; [discriminate|reflexivity].
  - destruct run as [stdout| |]; simpl.
    + unfold is_blank. destruct (truthy (strip stdout)) eqn:E; split.
      * discriminate.
      * intros H. specialize (H stdout eq_refl). now rewrite E in H.
      * intros _ out [= <-]. now rewrite E.
      * reflexivity.
    + split; [discriminate|reflexivity].
    + split; [discriminate|reflexivity].
Qed.

(** X2.  [get_signed_off_by] returns a trailer exactly when both lookups
    completed with an output that is not blank, and the trailer is then
    [Signed-off-by: name <email>] with both outputs stripped; in every
    other case it returns nothing. *)
Theorem get_signed_off_by_lookups (name_run email_run : RunResult)
  (trailer : str) :
  get_signed_off_by (read_git_config name_run email_run) = Some trailer
  <-> exists name email,
        name_run = Completed name /\ email_run = Completed email
        /\ is_blank name = false /\ is_blank email = false
        /\ trailer = lit "Signed-off-by: " ++ strip name
                      ++ lit " <" ++ strip email ++ lit ">".
Proof.
  unfold get_signed_off_by, read_git_config, is_blank. cbn [user_name user_email].
  split.
  - destruct name_run as [name| |]; simpl; try discriminate.
    destruct (truthy (strip name)) eqn:En; [|discriminate].
    destruct email_run as [email| |]; simpl; try discriminate.
    destruct (truthy (strip email)) eqn:Ee; [|discriminate].
    rewrite En, Ee. simpl. intros [= <-].
    exists name, email. now rewrite En, Ee.
  - intros (name & email & -> & -> & Hn & He & ->).
    apply negb_false_iff in Hn, He. simpl.
    rewrite Hn, He, Hn, He. reflexivity.
Qed.

(** ** Saving *)

Lemma truthy_nil (s : str) : truthy s = false <-> s = [].
Proof. destruct s; simpl; split; congruence. Qed.

Lemma endswith_char (s : str) (c : ascii) :
  endswith s [c] = true <-> exists b, s = b ++ [c].
Proof.
  unfold endswith. simpl rev. split.
  - destruct (rev s) as [|d r] eqn:E; simpl; [discriminate|].
    destruct (Ascii.eqb_spec d c) as [->|]; [|discriminate].
    intros _. exists (rev r).
    apply (f_equal (@rev ascii)) in E. now rewrite rev_involutive in E.
  - intros (b & ->). rewrite rev_app_distr. simpl.
    rewrite Ascii.eqb_refl. now destruct (rev b).
Qed.

Lemma rstrip_idempotent (l : str) : rstrip (rstrip l) = rstrip l.
Proof.
  unfold rstrip. rewrite rev_involutive.
  now rewrite lstrip_of_headed by apply lstrip_headed.
Qed.

Lemma rstrip_incl (l : str) (c : ascii) : In c (rstrip l) -> In c l.
Proof.
  unfold rstrip. intros H. apply in_rev. apply lstrip_incl.
  now apply in_rev.
Qed.

Lemma rstrip_lines_free (lines : list str) :
  Forall (free_of newline) lines ->
  Forall (free_of newline) (map rstrip lines).
Proof.
  intros H. apply Forall_map. eapply Forall_impl; [|exact H].
  intros l Hl Hin. apply Hl. now apply rstrip_incl.
Qed.

Lemma split_snoc_sep (sep : ascii) (b : str) :
  split sep (b ++ [sep]) = split sep b ++ [[]].
Proof. now rewrite split_app_sep. Qed.

(** A joined list of lines ends with a line break exactly when its last
    line is empty and is not its only line. *)
Lemma join_ends_with_newline (lines : list str) :
  lines <> [] -> Forall (free_of newline) lines ->
  (endswith (join newline lines) [newline] = true
   <-> exists init, init <> [] /\ lines = init ++ [[]]).
Proof.
  intros Hne Hfree. rewrite endswith_char. split.
  - intros (b & E).
    apply (f_equal (split newline)) in E.
    rewrite split_join, split_snoc_sep in E by assumption.
    exists (split newline b). split; [apply split_not_nil|exact E].
  - intros (init & Hinit & ->).
    exists (join newline init). now rewrite join_snoc.
Qed.

(** The lines of the saved text. *)
Lemma save_content_lines (content : str) :
  let lines := map rstrip (document_lines content) in
  document_lines (save_content content)
  = if endswith (join newline lines) [newline] then lines
    else lines ++ [[]].
Proof.
  cbv zeta. unfold save_content. fold (document_lines content).
  assert (Hne : map rstrip (document_lines content) <> []).
  { pose proof (split_not_nil newline content) as H.
    unfold document_lines. now destruct (split newline content). }
  assert (Hfree : Forall (free_of newline)
                    (map rstrip (document_lines content)))
    by apply rstrip_lines_free, Toggle.document_lines_free.
  destruct (endswith (join newline (map rstrip (document_lines content)))
              [newline]).
  - now apply document_lines_join.
  - unfold document_lines at 1. rewrite split_snoc_sep. f_equal.
    now apply document_lines_join.
Qed.

Lemma save_content_saved_form (content : str) :
  saved_form (save_content content).
Proof.
  split.
  - unfold save_content.
    destruct (endswith (join newline (map rstrip (split newline content)))
                [newline]) eqn:E; [exact E|].
    apply endswith_char. now eexists.
  - rewrite save_content_lines. cbv zeta.
    assert (H : Forall (fun line => rstrip line = line)
                  (map rstrip (document_lines content))).
    { apply Forall_map, Forall_forall. intros l _.
      apply rstrip_idempotent. }
    destruct (endswith _ _); [exact H|].
    apply Forall_app. split; [exact H|now repeat constructor].
Qed.

Lemma saved_form_fixed (t : str) : saved_form t -> save_content t = t.
Proof.
  intros [Hend Hlines]. unfold save_content.
  fold (document_lines t).
  replace (map rstrip (document_lines t)) with (document_lines t).
  - unfold document_lines. rewrite join_split. now rewrite Hend.
  - symmetry. rewrite <- (map_id (document_lines t)) at 2.
    apply map_ext_Forall. exact Hlines.
Qed.

(** X3.  The text that a save writes ends with a line break and none of
    its lines ends with white space, whatever the buffer holds. *)
Theorem save_content_ends_clean (content : str) :
  (exists body, save_content content = body ++ [newline])
  /\ Forall (fun line => rstrip line = line)
       (document_lines (save_content content)).
Proof.
  destruct (save_content_saved_form content) as [Hend Hlines].
  split; [|exact Hlines]. now apply endswith_char.
Qed.

(** X4.  Saving is idempotent on the text: what a save wrote, a second
    save writes again unchanged. *)
Theorem save_content_idempotent (content : str) :
  save_content (save_content content) = save_content content.
Proof.
  destruct (save_content_saved_form content) as [Hend Hlines].
  set (saved := save_content content) in *.
  unfold save_content. fold (document_lines saved).
  replace (map rstrip (document_lines saved)) with (document_lines saved).
  - unfold document_lines. rewrite join_split. now rewrite Hend.
  - symmetry. rewrite <- (map_id (document_lines saved)) at 2.
    apply map_ext_Forall. exact Hlines.
Qed.

(** X5.  A save keeps every line of the buffer, each without the white
    space at its end, blank lines at the end of the text included.  It
    adds a line break at the end, that is one empty last line, unless the
    buffer has at least two lines of which the last is blank. *)
Theorem save_content_keeps_lines (content : str) :
  let lines := document_lines content in
  let blank_end := (2 <=? length lines) && is_blank (last lines []) in
  document_lines (save_content content)
  = if blank_end then map rstrip lines else map rstrip lines ++ [[]].
Proof.
  cbv zeta. rewrite save_content_lines. cbv zeta.
  set (lines := document_lines content).
  assert (Hne : lines <> []) by apply split_not_nil.
  assert (Hfree : Forall (free_of newline) (map rstrip lines))
    by apply rstrip_lines_free, Toggle.document_lines_free.
  assert (Hne' : map rstrip lines <> []) by (now destruct lines).
  pose proof (join_ends_with_newline (map rstrip lines) Hne' Hfree) as Hiff.
  assert (Hblank : forall l, is_blank l = true <-> rstrip l = []).
  { intros l. unfold is_blank, strip. rewrite negb_true_iff. rewrite truthy_nil.
    unfold rstrip. split.
    - intros E. apply (f_equal (@rev ascii)) in E.
      rewrite rev_involutive in E. simpl in E.
      destruct (lstrip_cut l) as (ws & El & Hws).
      destruct (lstrip l) as [|c r] eqn:Ec.
      + rewrite app_nil_r in El. subst ws.
        assert (Hhd := lstrip_headed (rev l)).
        destruct (lstrip (rev l)) as [|d r'] eqn:Ed; [reflexivity|].
        simpl in Hhd.
        destruct (lstrip_cut (rev l)) as (ws' & Er & _).
        rewrite Ed in Er.
        assert (Hin : In d l).
        { apply in_rev. rewrite Er. apply in_or_app. right. now left. }
        rewrite Forall_forall in Hws. apply Hws in Hin. congruence.
      + assert (Hhd := lstrip_headed l). rewrite Ec in Hhd. simpl in Hhd.
        assert (Hin : In c (lstrip (rev (c :: r)))).
        { apply lstrip_keeps; [|exact Hhd]. apply -> in_rev. now left. }
        rewrite E in Hin. destruct Hin.
    - intros E. apply (f_equal (@rev ascii)) in E.
      rewrite rev_involutive in E. simpl in E.
      destruct (lstrip l) as [|c r] eqn:Ec; [reflexivity|exfalso].
      assert (Hhd := lstrip_headed l). rewrite Ec in Hhd. simpl in Hhd.
      assert (Hin : In c (lstrip (rev l))).
      { apply lstrip_keeps; [|exact Hhd]. apply -> in_rev.
        apply lstrip_incl. rewrite Ec. now left. }
      rewrite E in Hin. destruct Hin. }
  case_eq (endswith (join newline (map rstrip lines)) [newline]); intros E.
  - apply Hiff in E as (init & Hinit & Einit).
    replace ((2 <=? length lines) && is_blank (last lines [])) with true;
      [reflexivity|].
    symmetry. apply andb_true_iff. split.
    + apply Nat.leb_le. rewrite <- (length_map rstrip), Einit, length_app.
      destruct init; [congruence|simpl; lia].
    + apply Hblank. clearbody lines.
      destruct lines as [|l0 lines0] using rev_ind; [congruence|].
      rewrite map_app in Einit. apply app_inj_tail in Einit as [_ El].
      now rewrite last_last.
  - replace ((2 <=? length lines) && is_blank (last lines [])) with false;
      [reflexivity|].
    symmetry. apply not_true_is_false. intros H.
    apply andb_true_iff in H as [Hlen Hb]. apply Nat.leb_le in Hlen.
    apply Hblank in Hb.
    assert (Habs : endswith (join newline (map rstrip lines)) [newline]
                   = true).
    { apply Hiff. clearbody lines.
      destruct lines as [|l0 lines0] using rev_ind; [congruence|].
      rewrite last_last in Hb. exists (map rstrip lines0). split.
      - rewrite length_app in Hlen. simpl in Hlen.
        destruct lines0; [simpl in Hlen; lia|discriminate].
      - now rewrite map_app, <- Hb. }
    congruence.
Qed.

(** ** Saving, the dirty flag and the quit prompt *)

Lemma str_eqb_eq (a b : str) : str_eqb a b = true <-> a = b.
Proof.
  unfold str_eqb. destruct (list_eq_dec ascii_dec a b); split;
    congruence.
Qed.

Lemma str_eqb_neq (a b : str) : a <> b -> str_eqb a b = false.
Proof.
  intros H. destruct (str_eqb a b) eqn:E; [|reflexivity].
  now apply str_eqb_eq in E.
Qed.

Lemma str_eqb_refl (a : str) : str_eqb a a = true.
Proof. now apply str_eqb_eq. Qed.

(** X6.  A save writes the normalized text to the file and clears the
    dirty flag, but leaves the buffer as it was typed.  The next change
    event compares the buffer with what was written: it leaves the buffer
    clean exactly when the buffer already is in saved form, that is ends
    with a line break and has no white space at the end of a line. *)
Theorem save_then_change (s : Session) :
  let saved := action_save s in
  let t := text (editor (ui s)) in
  editor (ui saved) = editor (ui s)
  /\ file_content saved = save_content t
  /\ _original_content saved = save_content t
  /\ dirty saved = false
  /\ (dirty (on_editor_changed saved) = false <-> saved_form t).
Proof.
  cbv zeta. repeat (split; [reflexivity|]).
  unfold on_editor_changed, action_save.
  cbn [ui set_dirty set_ui dirty _original_content show_message editor].
  rewrite negb_false_iff, str_eqb_eq. split.
  - intros E. rewrite E. apply save_content_saved_form.
  - intros H. symmetry. now apply saved_form_fixed.
Qed.

(** X7.  The quit prompt.  Asking to quit with unsaved changes does not
    exit and does not touch the file: it shows the prompt and makes the
    editor read-only.  Then the key [y] saves the normalized buffer and
    exits; the key [n] exits and leaves the file as it was; the key
    [escape] goes back to editing, with the buffer, the dirty flag and the
    file as they were and the message bar cleared; any other key changes
    nothing. *)
Theorem quit_prompt (s : Session)
  (Hdirty : dirty s = true) (Hmode : _prompt_mode s = None) :
  let asked := action_quit_app s in
  (exited asked = exited s /\ file_content asked = file_content s
   /\ read_only asked = true /\ _prompt_mode asked = Some quit_confirm
   /\ message (message_bar (ui asked)) = SAVE_CHANGES
   /\ editor (ui asked) = editor (ui s))
  /\ (exited (on_key (lit "y") asked) = true
      /\ file_content (on_key (lit "y") asked)
         = save_content (text (editor (ui s)))
      /\ dirty (on_key (lit "y") asked) = false)
  /\ (exited (on_key (lit "n") asked) = true
      /\ file_content (on_key (lit "n") asked) = file_content s)
  /\ on_key (lit "escape") asked
     = set_read_only false (set_ui (clear_message (ui s)) s)
  /\ (forall key,
        key <> lit "y" -> key <> lit "n" -> key <> lit "escape" ->
        on_key key asked = asked).
Proof.
  cbv zeta. unfold action_quit_app. rewrite Hdirty.
  split; [now repeat split|].
  split; [now repeat split|].
  split; [now repeat split|].
  split.
  - destruct s; simpl in *. subst. reflexivity.
  - intros key Hy Hn He. unfold on_key. cbn [_prompt_mode set_ui set_read_only set_prompt_mode].
    now rewrite !str_eqb_neq.
Qed.

Lemma quit_prompt_witness :
  let s := set_dirty true
             (set_ui {| editor := load_text (lit "Modified") (0, 8);
                        message_bar := {| message := []; error := false |} |}
                (on_mount (lit "msg.txt") (lit "Original") (lit "Original"))) in
  dirty s = true /\ _prompt_mode s = None
  /\ exited (on_key (lit "y") (action_quit_app s)) = true
  /\ file_content (on_key (lit "y") (action_quit_app s))
     = lit "Modified" ++ [newline]
  /\ file_content (on_key (lit "n") (action_quit_app s)) = lit "Original".
Proof.
  intros s.
  assert (H1 : dirty s = true) by reflexivity.
  assert (H2 : _prompt_mode s = None) by reflexivity.
  split; [exact H1|]. split; [exact H2|].
  destruct (quit_prompt s H1 H2) as (_ & (Hy1 & Hy2 & _) & (_ & Hn2) & _).
  split; [exact Hy1|]. split; [exact Hy2|exact Hn2].
Defined.

(** X8.  Quitting a clean session and the guards of the prompt.  Asking
    to quit without unsaved changes exits at once, with no prompt and
    without writing the file.  Outside the prompt no key does anything,
    and neither do the three actions of the prompt. *)
Theorem quit_clean_and_guards (s : Session) (key : str)
  (Hmode : _prompt_mode s = None) :
  (dirty s = false ->
   exited (action_quit_app s) = true
   /\ file_content (action_quit_app s) = file_content s
   /\ _prompt_mode (action_quit_app s) = None
   /\ ui (action_quit_app s) = ui s)
  /\ on_key key s = s
  /\ action_confirm_quit s = s
  /\ action_discard_quit s = s
  /\ action_cancel_quit s = s.
Proof.
  split.
  - intros Hd. unfold action_quit_app. rewrite Hd. now repeat split.
  - unfold on_key, action_confirm_quit, action_discard_quit,
      action_cancel_quit. rewrite Hmode. now repeat split.
Qed.

Lemma quit_clean_and_guards_witness :
  let s := on_mount (lit "msg.txt") (lit "Content") (lit "Content") in
  _prompt_mode s = None
  /\ exited (action_quit_app s) = true
  /\ file_content (action_quit_app s) = lit "Content"
  /\ on_key (lit "y") s = s.
Proof.
  intros s.
  assert (H : _prompt_mode s = None) by reflexivity.
  split; [exact H|].
  destruct (quit_clean_and_guards s (lit "y") H) as (Hq & Hk & _).
  destruct (Hq eq_refl) as (He & Hf & _).
  split; [exact He|]. split; [exact Hf|exact Hk].
Defined.

(** ** Runs of the application *)

Lemma step_invariants (content : str) (s : Session) (e : Step) :
  (_prompt_mode s = Some quit_confirm -> read_only s = true) ->
  (read_only s = true ->
   _prompt_mode s = Some quit_confirm \/ exited s = true) ->
  (file_content s = content \/ saved_form (file_content s)) ->
  let s' := step s e in
  (_prompt_mode s' = Some quit_confirm -> read_only s' = true)
  /\ (read_only s' = true ->
      _prompt_mode s' = Some quit_confirm \/ exited s' = true)
  /\ (file_content s' = content \/ saved_form (file_content s'))
  /\ filename s' = filename s.
Proof.
  intros H1 H2 H3. cbv zeta.
  pose proof (save_content_saved_form (text (editor (ui s)))) as Hsaved.
  destruct e; cbn [step];
    unfold on_editor_changed, on_key, action_save, action_quit_app,
      action_confirm_quit, action_discard_quit, action_cancel_quit,
      toggle_signoff;
    try destruct (str_eqb key (lit "y"));
    try destruct (str_eqb key (lit "n"));
    try destruct (str_eqb key (lit "escape"));
    unfold action_confirm_quit, action_discard_quit, action_cancel_quit,
      action_save;
    destruct (_prompt_mode s) as [[]|] eqn:Em;
    try destruct (dirty s) eqn:Ed;
    cbn [_prompt_mode read_only exited file_content filename ui
         set_ui set_dirty set_read_only set_prompt_mode exit
         clear_message show_prompt show_message editor];
    rewrite ?Em;
    repeat split; try tauto; try congruence; try discriminate;
    auto.
Qed.

(** X9.  In every run of the application from its start on a file, the
    editor is read-only whenever the quit prompt is open, and it is
    read-only only then or after the exit; the file on disk either still
    has the content that was read or holds a text in saved form, ending
    with a line break and without white space at the end of a line; and
    the name of the file never changes. *)
Theorem run_invariants (name content shown : str) (steps : list Step) :
  let s := run (on_mount name content shown) steps in
  (_prompt_mode s = Some quit_confirm -> read_only s = true)
  /\ (read_only s = true ->
      _prompt_mode s = Some quit_confirm \/ exited s = true)
  /\ (file_content s = content \/ saved_form (file_content s))
  /\ filename s = name.
Proof.
  cbv zeta. unfold run.
  induction steps as [|e steps IH] using rev_ind.
  - simpl. repeat split; try discriminate. now left.
  - rewrite fold_left_app. cbn [fold_left].
    destruct IH as (H1 & H2 & H3 & H4).
    destruct (step_invariants content _ e H1 H2 H3) as (K1 & K2 & K3 & K4).
    repeat split; try assumption. now rewrite K4.
Qed.

(** A run of the test suite: a change, a request to quit, the key [y]. *)
Example run_edit_quit_save :
  let s := run (on_mount (lit "msg.txt") (lit "Original") (lit "Original"))
             [UserEdit (load_text (lit "Modified") (0, 8)); Changed;
              QuitApp; Key (lit "y")] in
  exited s = true /\ file_content s = lit "Modified" ++ [newline]
  /\ dirty s = false.
Proof. vm_compute. now repeat split. Qed.

(** ** The title overflow marker *)

Section HighlightFacts.

Context {Style Control : Type} {ops : StyleOps Style}.

Implicit Types (segs acc : list (Segment Style Control)).

Lemma mark_chars (text : str) :
  forall (n : Z) (a b : str),
  fold_left mark_char text (n, a, b)
  = ((n + len text)%Z,
     a ++ firstn (Z.to_nat (TITLE_MAX_LENGTH - n)) text,
     b ++ skipn (Z.to_nat (TITLE_MAX_LENGTH - n)) text).
Proof.
  unfold len.
  induction text as [|c text IH]; intros n a b.
  - simpl. rewrite firstn_nil, skipn_nil, !app_nil_r. f_equal. f_equal. lia.
  - cbn [fold_left mark_char]. unfold TITLE_MAX_LENGTH in *.
    destruct (Z.ltb_spec n 50).
    + rewrite IH.
      replace (Z.to_nat (50 - n)) with (S (Z.to_nat (50 - (n + 1)))) by lia.
      cbn [firstn skipn length]. rewrite <- app_assoc. simpl app.
      f_equal. f_equal. lia.
    + rewrite IH.
      replace (Z.to_nat (50 - n)) with 0 by lia.
      replace (Z.to_nat (50 - (n + 1))) with 0 by lia.
      cbn [firstn skipn length]. rewrite <- app_assoc, !app_nil_r. simpl app.
      f_equal. f_equal. lia.
Qed.

Lemma seg_texts_app segs1 segs2 :
  seg_texts (segs1 ++ segs2) = seg_texts segs1 ++ seg_texts segs2.
Proof. unfold seg_texts. now rewrite map_app, concat_app. Qed.

Lemma styled_app segs1 segs2 :
  styled (segs1 ++ segs2) = styled segs1 ++ styled segs2.
Proof. unfold styled. now rewrite flat_map_app. Qed.

(** What one segment becomes once the title has started, as a list. *)
Definition marked (n : Z) (segment : Segment Style Control)
  : list (Segment Style Control) :=
  let text := seg_text segment in
  let k := Z.to_nat (TITLE_MAX_LENGTH - n) in
  if truthy text then
    (if truthy (firstn k text)
     then [mkSegment (firstn k text) (seg_style segment) None] else [])
    ++ (if truthy (skipn k text)
        then [mkSegment (skipn k text)
                (Some (combined_style (seg_style segment))) None]
        else [])
  else [segment].

Lemma highlight_step_started (title : str) (n : Z) acc
  (segment : Segment Style Control) :
  highlight_step title (n, true, acc) segment
  = ((if truthy (seg_text segment) then n + len (seg_text segment) else n)%Z,
     true, acc ++ marked n segment).
Proof.
  unfold highlight_step, marked. cbn [negb andb].
  destruct (truthy (seg_text segment)) eqn:Et.
  - rewrite mark_chars. cbn [app].
    destruct (truthy (firstn _ _)), (truthy (skipn _ _));
      rewrite <- ?app_assoc, ?app_nil_r; reflexivity.
  - reflexivity.
Qed.

Lemma highlight_step_start (title : str) (n : Z) acc
  (segment : Segment Style Control) :
  starts_title (seg_text segment) title = true ->
  highlight_step title (n, false, acc) segment
  = highlight_step title (n, true, acc) segment.
Proof. intros H. unfold highlight_step. cbn [negb]. now rewrite H. Qed.

Lemma highlight_step_before (title : str) (n : Z) acc
  (segment : Segment Style Control) :
  starts_title (seg_text segment) title = false ->
  highlight_step title (n, false, acc) segment
  = (n, false, acc ++ [segment]).
Proof. intros H. unfold highlight_step. cbn [negb]. now rewrite H. Qed.

Lemma highlight_before (title : str) segs :
  Forall (fun sg => starts_title (seg_text sg) title = false) segs ->
  forall n acc,
  fold_left (highlight_step title) segs (n, false, acc)
  = (n, false, acc ++ segs).
Proof.
  induction 1 as [|sg segs Hsg Hsegs IH]; intros n acc.
  - simpl. now rewrite app_nil_r.
  - cbn [fold_left]. rewrite highlight_step_before by assumption.
    rewrite IH, <- app_assoc. reflexivity.
Qed.

Lemma marked_texts (n : Z) (segment : Segment Style Control) :
  seg_texts (marked n segment) = seg_text segment.
Proof.
  unfold marked, seg_texts.
  set (k := Z.to_nat (TITLE_MAX_LENGTH - n)).
  destruct (truthy (seg_text segment)); [|simpl; apply app_nil_r].
  rewrite <- (firstn_skipn k (seg_text segment)) at 5.
  destruct (firstn k (seg_text segment)) eqn:E1,
    (skipn k (seg_text segment)) eqn:E2; simpl;
    rewrite ?app_nil_r; reflexivity.
Qed.

Lemma marked_styled (n : Z) (segment : Segment Style Control) :
  styled (marked n segment)
  = mark_from (Z.to_nat (TITLE_MAX_LENGTH - n)) (styled [segment]).
Proof.
  unfold marked, mark_from, styled.
  set (k := Z.to_nat (TITLE_MAX_LENGTH - n)).
  cbn [flat_map]. rewrite app_nil_r.
  rewrite firstn_map, skipn_map, map_map. cbn [fst snd].
  destruct (truthy (seg_text segment)) eqn:Et.
  - destruct (firstn k (seg_text segment)) eqn:E1,
      (skipn k (seg_text segment)) eqn:E2; simpl;
      rewrite ?app_nil_r; reflexivity.
  - apply truthy_nil in Et. rewrite Et, firstn_nil, skipn_nil.
    cbn [flat_map]. now rewrite Et.
Qed.

Lemma mark_from_app (k : nat) (l1 l2 : list (ascii * option Style)) :
  mark_from k (l1 ++ l2) = mark_from k l1 ++ mark_from (k - length l1) l2.
Proof.
  unfold mark_from. rewrite firstn_app, skipn_app, map_app.
  destruct (Nat.le_gt_cases (length l1) k) as [Hle|Hgt].
  - rewrite (skipn_all2 l1) by assumption. simpl.
    rewrite <- !app_assoc. reflexivity.
  - replace (k - length l1) with 0 by lia. simpl.
    rewrite <- !app_assoc. reflexivity.
Qed.

Lemma styled_length (segment : Segment Style Control) :
  length (styled [segment]) = length (seg_text segment).
Proof. unfold styled. simpl. now rewrite app_nil_r, length_map. Qed.

Lemma highlight_started (title : str) segs :
  forall n acc,
  exists n' tail,
    fold_left (highlight_step title) segs (n, true, acc)
    = (n', true, acc ++ tail)
    /\ seg_texts tail = seg_texts segs
    /\ styled tail
       = mark_from (Z.to_nat (TITLE_MAX_LENGTH - n)) (styled segs).
Proof.
  induction segs as [|sg segs IH]; intros n acc.
  - exists n, []. rewrite app_nil_r. repeat split.
    unfold mark_from, styled. simpl. now rewrite firstn_nil, skipn_nil.
  - cbn [fold_left]. rewrite highlight_step_started.
    set (n1 := (if truthy (seg_text sg) then n + len (seg_text sg)
                else n)%Z).
    destruct (IH n1 (acc ++ marked n sg)) as (n' & tail & E & T & S).
    exists n', (marked n sg ++ tail). split; [|split].
    + rewrite E, <- app_assoc. reflexivity.
    + rewrite seg_texts_app, marked_texts, T. reflexivity.
    + rewrite styled_app, marked_styled, S.
      change (sg :: segs) with ([sg] ++ segs).
      rewrite styled_app, mark_from_app, styled_length. f_equal. f_equal.
      subst n1. unfold len.
      destruct (seg_text sg); simpl truthy; cbv iota; simpl length; lia.
Qed.

Lemma highlight_texts (title : str) segs :
  forall n b acc,
  exists n' b' out,
    fold_left (highlight_step title) segs (n, b, acc) = (n', b', acc ++ out)
    /\ seg_texts out = seg_texts segs.
Proof.
  induction segs as [|sg segs IH]; intros n b acc.
  - exists n, b, []. now rewrite app_nil_r.
  - destruct b.
    + destruct (highlight_started title (sg :: segs) n acc)
        as (n' & tail & E & T & _).
      now exists n', true, tail.
    + destruct (starts_title (seg_text sg) title) eqn:Es.
      * cbn [fold_left]. rewrite highlight_step_start by assumption.
        destruct (highlight_started title (sg :: segs) n acc)
          as (n' & tail & E & T & _).
        now exists n', true, tail.
      * cbn [fold_left]. rewrite highlight_step_before by assumption.
        destruct (IH n false (acc ++ [sg])) as (n' & b' & out & E & T).
        exists n', b', (sg :: out). split.
        -- rewrite E, <- app_assoc. reflexivity.
        -- change (sg :: out) with ([sg] ++ out).
           change (sg :: segs) with ([sg] ++ segs).
           now rewrite !seg_texts_app, T.
Qed.

(** X10.  Rendering a line never changes what the line displays: at
    every row, for every text of the editor, the segments that
    [render_line] returns hold the same characters in the same order as
    the rendered line it started from, and the width in cells is the
    same.  Only styles change. *)
Theorem render_line_keeps_text (y : Z) (strip : Strip Style Control)
  (t : str) :
  seg_texts (segments (render_line y strip t)) = seg_texts (segments strip)
  /\ cell_length (render_line y strip t) = cell_length strip.
Proof.
  unfold render_line.
  destruct (y =? 0)%Z; [|now split].
  destruct (split newline t) as [|title rest]; [now split|].
  destruct (TITLE_MAX_LENGTH <? len title)%Z; [|now split].
  unfold _highlight_title_overflow.
  destruct (highlight_texts title (segments strip) 0%Z false [])
    as (n' & b' & out & E & T).
  rewrite E. cbn [segments cell_length app]. now split.
Qed.

(** X11.  Where the marker puts the warning.  The segments before the
    first one that starts the title are returned as they are.  From that
    segment on, counting characters from its first one, the first 50 keep
    the style of their segment and every later one gets the warning style,
    added to its own style when it has one. *)
Theorem highlight_marks_overflow (strip : Strip Style Control) (title : str)
  (pre post : list (Segment Style Control)) (sg : Segment Style Control)
  (Hsegs : segments strip = pre ++ sg :: post)
  (Hpre : Forall (fun s => starts_title (seg_text s) title = false) pre)
  (Hstart : starts_title (seg_text sg) title = true) :
  exists tail,
    segments (_highlight_title_overflow strip title) = pre ++ tail
    /\ styled tail = mark_from 50 (styled (sg :: post)).
Proof.
  unfold _highlight_title_overflow. rewrite Hsegs, fold_left_app.
  rewrite (highlight_before title pre Hpre). cbn [fold_left app].
  rewrite highlight_step_start by assumption.
  destruct (highlight_started title (sg :: post) 0%Z pre)
    as (n' & tail & E & _ & S).
  cbn [fold_left] in E. rewrite E. cbn [segments].
  exists tail. split; [reflexivity|exact S].
Qed.

(** X12.  When no segment starts the title, the marker returns the line
    as it is, however long the title. *)
Theorem highlight_without_start (strip : Strip Style Control) (title : str)
  (Hnone : Forall (fun s => starts_title (seg_text s) title = false)
             (segments strip)) :
  _highlight_title_overflow strip title = strip.
Proof.
  unfold _highlight_title_overflow.
  rewrite (highlight_before title (segments strip) Hnone).
  now destruct strip.
Qed.

End HighlightFacts.

(** The marker on a line of sixty letters after a gutter: the gutter and
    the first fifty letters keep their styles, the last ten are marked. *)
Lemma highlight_marks_overflow_witness :
  let gutter := mkSegment (lit "1 ") (Some [lit "dim"]) (@None unit) in
  let body := mkSegment (repeat "A"%char 60) None (@None unit) in
  let strip := mkStrip [gutter; body] 62 in
  exists tail,
    segments (@_highlight_title_overflow _ _ attribute_styles strip
                (repeat "A"%char 60))
    = [gutter] ++ tail
    /\ styled tail = @mark_from _ attribute_styles 50 (styled [body]).
Proof.
  intros gutter body strip.
  refine (@highlight_marks_overflow _ _ attribute_styles strip
            (repeat "A"%char 60) [gutter] [] body eq_refl _ eq_refl).
  repeat constructor.
Defined.

Example highlight_sixty_letters :
  let gutter := mkSegment (lit "1 ") (Some [lit "dim"]) (@None unit) in
  let body := mkSegment (repeat "A"%char 60) None (@None unit) in
  segments (@render_line _ _ attribute_styles 0 (mkStrip [gutter; body] 62)
              (repeat "A"%char 60 ++ newline :: lit "body"))
  = [gutter;
     mkSegment (repeat "A"%char 50) None None;
     mkSegment (repeat "A"%char 10) (Some [lit "red"; lit "bold"]) None].
Proof. vm_compute. reflexivity. Qed.

(** A title that begins with a space, rendered as one segment, is not
    marked: the test compares the stripped segment with the title. *)
Lemma highlight_without_start_witness :
  let title := space :: repeat "A"%char 60 in
  let strip := mkStrip [mkSegment title None (@None unit)] 61 in
  @_highlight_title_overflow _ _ attribute_styles strip title = strip.
Proof.
  intros title strip.
  refine (@highlight_without_start _ _ attribute_styles strip title _).
  repeat constructor.
Defined.

(** ** More on the line wrapper *)

Lemma join_words_lstrip (s : str) :
  join space (dropwhile (fun w => negb (truthy w)) (split space s))
  = lstrip_spaces s.
Proof.
  unfold lstrip_spaces.
  induction s as [|c s IH]; [reflexivity|].
  cbn [split dropwhile].
  destruct (Ascii.eqb_spec c space) as [->|Hc].
  - cbn [dropwhile truthy negb]. exact IH.
  - destruct (split space s) as [|w ws] eqn:E;
      [now apply split_not_nil in E|].
    cbn [dropwhile truthy negb]. rewrite <- (join_split space s), E.
    destruct ws; reflexivity.
Qed.

(** X15.  Wrapping loses no word and no space between words.  On a line
    longer than the width whose only white space is the space character,
    the output lines joined with one space each are the line without the
    spaces at its beginning: each line break stands for one space, and
    only the indentation is dropped. *)
Theorem wrap_line_keeps_words (s : str) (width : Z)
  (Hplain : plain_spaces s) (Hlong : (width < len s)%Z) :
  join space (wrap_line s width) = lstrip_spaces s.
Proof.
  destruct s as [|c0 s0] eqn:Es; [reflexivity|]. rewrite <- Es in *.
  assert (Hne : s <> []) by (subst; discriminate).
  rewrite wrap_line_long, wrap_loop_skip_empty by assumption.
  rewrite <- join_words_lstrip.
  pose proof (dropwhile_Forall solid (fun w => negb (truthy w)) _
                (words_solid s Hplain)) as Hsolid.
  destruct (dropwhile (fun w => negb (truthy w)) (split space s))
    as [|w1 rest] eqn:Ed; [reflexivity|].
  apply dropwhile_head in Ed as Hw1.
  apply negb_false_iff, truthy_true in Hw1.
  inversion Hsolid as [|? ? Hs1 Hrest]; subst.
  rewrite wrap_loop_cons, wrap_step_first by assumption.
  destruct (wrap_loop_join width rest Hrest [] w1 Hw1 (solid_headed _ Hs1))
    as (lines' & cur' & E & Hcur' & J).
  rewrite E. unfold wrap_finish.
  apply truthy_true in Hcur' as Ht. rewrite Ht.
  replace (match lines' ++ [cur'] with [] => [[]] | _ :: _ => lines' ++ [cur'] end)
    with (lines' ++ [cur']) by (now destruct lines').
  change (join space ([] ++ [w1])) with w1 in J.
  rewrite J. symmetry. apply join_join_tail.
Qed.

Lemma wrap_line_keeps_words_witness :
  plain_spaces (lit "  aa  bb cc")
  /\ (6 < len (lit "  aa  bb cc"))%Z
  /\ wrap_line (lit "  aa  bb cc") 6 = [lit "aa  bb"; lit "cc"]
  /\ join space (wrap_line (lit "  aa  bb cc") 6) = lit "aa  bb cc".
Proof.
  assert (H1 : plain_spaces (lit "  aa  bb cc")).
  { intros c Hc Hsp. simpl in Hc.
    repeat (destruct Hc as [<-|Hc]; [reflexivity || discriminate|]).
    destruct Hc. }
  assert (H2 : (6 < len (lit "  aa  bb cc"))%Z) by (vm_compute; reflexivity).
  split; [exact H1|]. split; [exact H2|]. split; [reflexivity|].
  exact (wrap_line_keeps_words (lit "  aa  bb cc") 6 H1 H2).
Defined.







Lemma wrap_line_within_bound_witness :
  (0 <= 4)%Z
  /\ wrap_line (lit "abcd  ef") 4 = [lit "abcd "; lit "ef"]
  /\ Forall (within_bound (lit "abcd  ef") 4) (wrap_line (lit "abcd  ef") 4).
Proof.
  assert (H : (0 <= 4)%Z) by lia.
  split; [exact H|]. split; [reflexivity|].
  exact (wrap_line_within_bound (lit "abcd  ef") 4 H).
Defined.

Lemma wrap_line_single_spaced_witness :
  (0 <= 10)%Z
  /\ ~ In [] (split space (lit "aaa bbb ccc ddd"))
  /\ wrap_line (lit "aaa bbb ccc ddd") 10 = [lit "aaa bbb"; lit "ccc ddd"]
  /\ Forall (fun out => (len out <= 10)%Z
                        \/ In out (split space (lit "aaa bbb ccc ddd")))
       (wrap_line (lit "aaa bbb ccc ddd") 10).
Proof.
  assert (H1 : (0 <= 10)%Z) by lia.
  assert (H2 : ~ In [] (split space (lit "aaa bbb ccc ddd"))).
  { simpl. intros H.
    repeat (destruct H as [H|H]; [discriminate|]). destruct H. }
  split; [exact H1|]. split; [exact H2|]. split; [reflexivity|].
  exact (wrap_line_single_spaced (lit "aaa bbb ccc ddd") 10 H1 H2).
Defined.

(** ** Inserting the trailer *)

(** X17.  When the last content line that is not blank is no
    [Signed-off-by:] line, the toggle inserts the trailer of the identity
    as the last content line: alone when there was no content, and after
    one empty line otherwise, whatever blank lines ended the content
    before.  The comment block stays as it was. *)
Theorem toggle_inserts_trailer (git : GitConfig) (app : CommitEditorApp)
  (signoff : str)
  (Hid : get_signed_off_by git = Some signoff)
  (Hline : free_of newline signoff)
  (Hlast : startswith (last (normal_content (text (editor app))) [])
             SIGNOFF_PREFIX = false) :
  let t := text (editor app) in
  let t' := text (editor (action_toggle_signoff git app)) in
  normal_content t'
  = match normal_content t with
    | [] => [signoff]
    | _ :: _ => normal_content t ++ [[]; signoff]
    end
  /\ comments_of t' = comments_of t.
Proof.
  cbv zeta.
  pose proof (get_signed_off_by_prefix git signoff Hid) as Hprefix.
  rewrite (action_toggle_signoff_some git app signoff Hid).
  cbn [editor load_text text].
  destruct (toggle_text_blocks signoff (text (editor app)) Hline Hprefix)
    as [E1 E2].
  destruct (normal_content_normal (text (editor app))) as [Hpop Hhash].
  rewrite E1, E2. split; [|reflexivity].
  rewrite toggle_content_add by assumption.
  destruct (normal_content (text (editor app))); [reflexivity|].
  now rewrite <- app_assoc.
Qed.

Lemma toggle_inserts_trailer_witness :
  let git :=
    {| user_name := Some (lit "A"); user_email := Some (lit "a@b.com") |} in
  let app :=
    {| editor :=
         {| text := lit "Subject" ++ newline :: newline :: lit "Body"
                    ++ newline :: newline :: newline :: lit "# note";
            cursor_location := (0, 0) |};
       message_bar := {| message := []; error := false |} |} in
  normal_content (text (editor (action_toggle_signoff git app)))
  = [lit "Subject"; []; lit "Body"; []; lit "Signed-off-by: A <a@b.com>"]
  /\ comments_of (text (editor (action_toggle_signoff git app)))
     = [lit "# note"].
Proof.
  intros git app.
  assert (Hline : free_of newline (lit "Signed-off-by: A <a@b.com>")).
  { intros H. vm_compute in H.
    repeat (destruct H as [H|H]; [discriminate|]). destruct H. }
  exact (toggle_inserts_trailer git app (lit "Signed-off-by: A <a@b.com>")
           eq_refl Hline eq_refl).
Defined.

(** ** The lookups on the outputs of the test suite *)

Example get_user_name_john :
  get_user_name (Completed (lit "John Doe" ++ [newline]))
  = Some (lit "John Doe")
  /\ get_user_name (Completed [newline]) = None
  /\ get_user_name CalledProcessError = None
  /\ get_user_name FileNotFoundError = None.
Proof. now repeat split. Qed.

Example get_signed_off_by_john :
  get_signed_off_by
    (read_git_config (Completed (lit "John Doe" ++ [newline]))
       (Completed (lit "john@example.com" ++ [newline])))
  = Some (lit "Signed-off-by: John Doe <john@example.com>").
Proof. reflexivity. Qed.

(** ** A long word inside a line *)

Lemma lstrip_app_solid (a w : str) :
  w <> [] -> solid w -> exists a', lstrip (a ++ w) = a' ++ w.
Proof.
  intros Hne Hsolid.
  induction a as [|c a (a' & IH)].
  - exists []. simpl. apply lstrip_of_headed. now apply solid_headed.
  - simpl. destruct (isspace c); [now exists a'|now exists (c :: a)].
Qed.

Lemma solid_rev (w : str) : solid w -> solid (rev w).
Proof. intros H c Hc. apply H. now apply in_rev. Qed.

(** Stripping a string that ends with a solid word keeps the word, and
    so does stripping a string that begins with one. *)
Lemma strip_keeps_last_word (a w : str) :
  w <> [] -> solid w -> exists a', strip (a ++ w) = a' ++ w.
Proof.
  intros Hne Hsolid.
  destruct (lstrip_app_solid a w Hne Hsolid) as (a' & E).
  exists a'. unfold strip, rstrip. rewrite E, rev_app_distr.
  assert (Hr : rev w <> []).
  { intros Hnil. apply Hne. rewrite <- (rev_involutive w), Hnil.
    reflexivity. }
  destruct (rev w) as [|d r] eqn:Er; [congruence|].
  assert (Hd : isspace d = false).
  { apply (solid_rev w Hsolid). rewrite Er. now left. }
  simpl. rewrite Hd.
  change (d :: r ++ rev a') with ((d :: r) ++ rev a').
  rewrite <- Er, <- rev_app_distr. apply rev_involutive.
Qed.

Lemma strip_keeps_first_word (w b : str) :
  w <> [] -> solid w -> exists b', strip (w ++ b) = w ++ b'.
Proof.
  intros Hne Hsolid. unfold strip.
  rewrite (lstrip_of_headed (w ++ b)).
  - unfold rstrip. rewrite rev_app_distr.
    assert (Hr : rev w <> []).
    { intros Hnil. apply Hne. rewrite <- (rev_involutive w), Hnil.
      reflexivity. }
    destruct (lstrip_app_solid (rev b) (rev w) Hr (solid_rev w Hsolid))
      as (b' & E).
    exists (rev b'). now rewrite E, rev_app_distr, rev_involutive.
  - destruct w as [|c w]; [congruence|]. simpl. apply Hsolid. now left.
Qed.

(** A solid word longer than the width never joins a line: the current
    line is flushed when there is one, and the word becomes the current
    line. *)
Lemma wrap_step_long_word (width : Z) (lines : list str) (cur word : str) :
  word <> [] -> solid word -> (width < len word)%Z ->
  wrap_step width (lines, cur) word
  = ((if truthy cur then lines ++ [cur] else lines), word).
Proof.
  intros Hne Hsolid Hlong. unfold wrap_step.
  apply truthy_true in Hne as Ht. rewrite Ht. cbn [negb].
  destruct (truthy cur).
  - destruct (strip_keeps_last_word (cur ++ [space]) word Hne Hsolid)
      as (a' & E).
    rewrite <- app_assoc in E. simpl app in E. rewrite E.
    destruct (Z.leb_spec (len (a' ++ word)) width) as [Hle|_];
      [|reflexivity].
    unfold len in *. rewrite length_app in Hle. lia.
  - destruct (Z.leb_spec (len word) width); [lia|reflexivity].
Qed.

(** With a solid long word as the current line, the next word flushes
    it as it is. *)
Lemma wrap_step_after_long_word (width : Z) (lines : list str)
  (word next : str) :
  word <> [] -> solid word -> (width < len word)%Z -> next <> [] ->
  wrap_step width (lines, word) next = (lines ++ [word], next).
Proof.
  intros Hne Hsolid Hlong Hnext. unfold wrap_step.
  apply truthy_true in Hne as Ht. apply truthy_true in Hnext as Hn.
  rewrite Ht, Hn. cbn [negb].
  destruct (strip_keeps_first_word word (space :: next) Hne Hsolid)
    as (b' & E).
  rewrite E.
  destruct (Z.leb_spec (len (word ++ b')) width) as [Hle|_];
    [|reflexivity].
  unfold len in *. rewrite length_app in Hle. lia.
Qed.

(** The loop only ever adds lines after those it has. *)
Lemma wrap_loop_extends (width : Z) (ws : list str) :
  forall lines cur,
  exists more, fst (wrap_loop width ws (lines, cur)) = lines ++ more.
Proof.
  induction ws as [|w ws IH]; intros lines cur.
  - exists []. simpl. now rewrite app_nil_r.
  - rewrite wrap_loop_cons.
    assert (H : exists m cur',
              wrap_step width (lines, cur) w = (lines ++ m, cur')).
    { unfold wrap_step.
      destruct (truthy w), (truthy cur); cbn [negb];
        repeat match goal with
               | |- context [(?a <=? ?b)%Z] => destruct (a <=? b)%Z
               end;
        first [ now exists [], (cur ++ [space]); rewrite app_nil_r
              | now exists [], cur; rewrite app_nil_r
              | now exists [], (strip (cur ++ space :: w)); rewrite app_nil_r
              | now exists [], w; rewrite app_nil_r
              | now exists [cur], w ]. }
    destruct H as (m & cur' & ->).
    destruct (IH (lines ++ m) cur') as (more & E).
    exists (m ++ more). now rewrite E, <- app_assoc.
Qed.

Lemma join_length_ge (sep : ascii) (w : str) (ps : list str) :
  In w ps -> length w <= length (join sep ps).
Proof.
  induction ps as [|p ps IH]; [intros []|].
  intros [->|Hin].
  - destruct ps; simpl; [lia|]. rewrite length_app. lia.
  - destruct ps as [|q ps]; [destruct Hin|].
    rewrite join_cons by discriminate. rewrite length_app. cbn [length].
    specialize (IH Hin). lia.
Qed.

(** C7, as the code has it.  A word without white space that is longer
    than the width is never split and never shares an output line with
    another word: wrapped on its own it is the only output line, and
    inside a line, where it stands at the end of the line or before one
    space and another word, it is an output line by itself.  The string
    of 100 letters [a] at width 72 is the first case. *)
Theorem wrap_line_long_word_in_line (line : str) (width : Z)
  (ws1 ws2 : list str) (word : str)
  (Hsplit : split space line = ws1 ++ word :: ws2)
  (Hne : word <> []) (Hsolid : solid word)
  (Hlong : (width < len word)%Z)
  (Hnext : hd_error ws2 <> Some []) :
  (ws1 = [] -> ws2 = [] -> wrap_line line width = [word])
  /\ exists before after, wrap_line line width = before ++ word :: after.
Proof.
  assert (Hline : (width < len line)%Z).
  { rewrite <- (join_split space line), Hsplit.
    pose proof (join_length_ge space word (ws1 ++ word :: ws2)) as H.
    unfold len in *. specialize (H ltac:(apply in_or_app; right; now left)).
    lia. }
  assert (Hl : line <> []).
  { intros ->. destruct ws1 as [|w1 ws1]; simpl in Hsplit.
    - injection Hsplit as E _. congruence.
    - injection Hsplit as _ E. now destruct ws1. }
  rewrite wrap_line_long, Hsplit by assumption.
  rewrite wrap_loop_app.
  destruct (wrap_loop width ws1 ([], [])) as [lines cur] eqn:Hpre.
  rewrite wrap_loop_cons, wrap_step_long_word by assumption.
  set (flushed := if truthy cur then lines ++ [cur] else lines).
  apply truthy_true in Hne as Ht.
  destruct ws2 as [|next ws2].
  - assert (E : wrap_finish (wrap_loop width [] (flushed, word))
                = flushed ++ [word]).
    { cbn [wrap_loop fold_left wrap_finish]. rewrite Ht.
      now destruct flushed. }
    rewrite E. split.
    + intros -> _. cbn in Hpre. injection Hpre as <- <-. reflexivity.
    + now exists flushed, [].
  - split; [discriminate|].
    assert (Hn : next <> []) by (intros ->; now apply Hnext).
    rewrite wrap_loop_cons, wrap_step_after_long_word by assumption.
    destruct (wrap_loop_extends width ws2 (flushed ++ [word]) next)
      as (more & E).
    destruct (wrap_loop width ws2 (flushed ++ [word], next))
      as [lines' cur'].
    cbn [fst] in E. subst lines'. unfold wrap_finish.
    exists flushed, (more ++ if truthy cur' then [cur'] else []).
    destruct (truthy cur').
    + rewrite <- !app_assoc. simpl app.
      now destruct flushed.
    + rewrite app_nil_r, <- app_assoc. simpl app.
      now destruct flushed.
Qed.

Lemma wrap_line_long_word_in_line_witness :
  let url := lit "https://example.com/" ++ repeat "a"%char 80 in
  (wrap_line (repeat "a"%char 100) 72 = [repeat "a"%char 100])
  /\ (exists before after,
        wrap_line (lit "See " ++ url ++ lit " for details") 72
        = before ++ url :: after)
  /\ wrap_line (lit "See " ++ url ++ lit " for details") 72
     = [lit "See"; url; lit "for details"].
Proof.
  intros url.
  assert (Ha : solid (repeat "a"%char 100)).
  { intros c Hc. apply repeat_spec in Hc. now subst. }
  assert (Hu : solid url).
  { intros c Hc. apply in_app_or in Hc as [Hc|Hc].
    - simpl in Hc.
      repeat (destruct Hc as [<-|Hc]; [reflexivity|]). destruct Hc.
    - apply repeat_spec in Hc. now subst. }
  assert (La : (72 < len (repeat "a"%char 100))%Z)
    by (vm_compute; reflexivity).
  assert (Lu : (72 < len url)%Z) by (vm_compute; reflexivity).
  split; [|split].
  - refine (proj1 (wrap_line_long_word_in_line (repeat "a"%char 100) 72
                     [] [] (repeat "a"%char 100) _ _ Ha La _) eq_refl eq_refl).
    + apply split_free. intros H. apply repeat_spec in H. discriminate.
    + discriminate.
    + discriminate.
  - refine (proj2 (wrap_line_long_word_in_line
                     (lit "See " ++ url ++ lit " for details") 72
                     [lit "See"] [lit "for"; lit "details"] url
                     _ _ Hu Lu _)).
    + vm_compute. reflexivity.
    + discriminate.
    + discriminate.
  - vm_compute. reflexivity.
Defined.

(** The claim C7 as it is worded fails inside a line.  Before two spaces
    the long word comes out with a space after it; and a word that
    begins with tabs loses them to [strip] and is joined with the next
    word on one short line. *)
Lemma wrap_line_long_word_not_alone :
  let word := repeat "a"%char 100 in
  let tabbed := repeat "009"%char 99 ++ lit "a" in
  (free_of space word /\ (72 < len word)%Z
   /\ wrap_line (word ++ lit "  b") 72 = [word ++ [space]; lit "b"]
   /\ ~ In word (wrap_line (word ++ lit "  b") 72))
  /\ (free_of space tabbed /\ (72 < len tabbed)%Z
      /\ wrap_line (tabbed ++ lit " b") 72 = [lit "a b"]
      /\ ~ In tabbed (wrap_line (tabbed ++ lit " b") 72)).
Proof.
  cbv zeta. split.
  - split.
    { intros H. apply repeat_spec in H. discriminate. }
    split; [vm_compute; reflexivity|].
    assert (E : wrap_line (repeat "a"%char 100 ++ lit "  b") 72
                = [repeat "a"%char 100 ++ [space]; lit "b"])
      by (vm_compute; reflexivity).
    split; [exact E|]. rewrite E. intros [H|[H|[]]].
    + apply (f_equal (@length ascii)) in H.
      rewrite length_app, repeat_length in H. simpl in H. lia.
    + apply (f_equal (@length ascii)) in H.
      rewrite repeat_length in H. simpl in H. lia.
  - split.
    { intros H. apply in_app_or in H as [H|H].
      - apply repeat_spec in H. discriminate.
      - destruct H as [H|[]]. discriminate. }
    split; [vm_compute; reflexivity|].
    assert (E : wrap_line ((repeat "009"%char 99 ++ lit "a") ++ lit " b") 72
                = [lit "a b"])
      by (vm_compute; reflexivity).
    split; [exact E|]. rewrite E. intros [H|[]].
    apply (f_equal (@length ascii)) in H.
    rewrite length_app, repeat_length in H. simpl in H. lia.
Qed.
